(** * Verification of the AEC Data Model reporting application (app.py)

    A shallow embedding of the request/response logic of [src/app.py]:
    the GraphQL client helper [execute_graphql], the cursor pagination
    loops of [Controller.view_family_instances] and
    [Controller.view_colored_categories], and the category reconciliation
    of [Controller.view_category_summary], [Controller.view_category_data]
    and [Controller.download_category_report].

    Conventions of the embedding.
    - A JSON object received from the API is a record with one field per
      key the code reads.  Every field is a [field]: the key may be
      missing, hold JSON null, or hold a value of the type the GraphQL
      schema gives it.  Python's [d.get(k)], [d.get(k, default)] and
      [x or default] are written out on that type.
    - Python exceptions are values of [exn]; code runs in the monad [M],
      which threads a [store] (the requests sent so far, the warnings
      shown to the user, the result list being appended to) and ends in
      [Ret], [Raise] or, for a [while True] loop cut off by its fuel,
      [OutOfFuel].
    - The remote API is a sequence [api : nat -> reply D]: the [n]-th
      call of [requests.post] is answered by [api n].
    - f-strings that only build messages are kept structured: a
      [RuntimeError] carries [HttpStatus] or [GraphQLErrors], a
      [UserError] its cause, a warning the category and the exception;
      progress messages, the OAuth2 preamble of each view and the final
      rendering (table, HTML, Word document) are not part of the model. *)

From stdpp Require Import base option list strings gmap sets pretty.

Local Open Scope string_scope.
Local Open Scope Z_scope.
Local Open Scope list_scope.

(** ** Python values *)

(** A key of a JSON object: missing, [null], or a value. *)
Inductive field (A : Type) : Type :=
| Absent
| Null
| Val (a : A).
Arguments Absent {A}.
Arguments Null {A}.
Arguments Val {A} a.

(** [d.get(k)]: [None] for a missing key and for [null]. *)
Definition get {A} (f : field A) : option A :=
  match f with
  | Absent => None
  | Null => None
  | Val a => Some a
  end.

(** [d.get(k, default)]: the default replaces a missing key only. *)
Definition get_default {A} (f : field A) (default : A) : option A :=
  match f with
  | Absent => Some default
  | Null => None
  | Val a => Some a
  end.

(** Python truth value of the values the code tests. *)
Class Truthy (A : Type) := truthy : A -> bool.

#[export] Instance string_truthy : Truthy string :=
  fun s => match s with EmptyString => false | String _ _ => true end.
#[export] Instance list_truthy {A} : Truthy (list A) :=
  fun l => match l with [] => false | _ :: _ => true end.
#[export] Instance option_truthy {A} `{Truthy A} : Truthy (option A) :=
  fun o => match o with None => false | Some a => truthy a end.

(** [x or default] *)
Definition or_else {A} `{Truthy A} (x : option A) (default : A) : A :=
  match x with
  | Some a => if truthy a then a else default
  | None => default
  end.

(** [x or {}] for a JSON object [x]: an empty object is falsy and is
    replaced by the empty object, so only [None] changes anything. *)
Definition or_dict {A} `{Empty A} (x : option A) : A :=
  match x with
  | Some a => a
  | None => ∅
  end.

(** ** Exceptions and the effect monad *)

Definition gql_error := string.

Inductive runtime_msg :=
| HttpStatus (status : Z) (text : string)      (* f"HTTP {status}: {text}" *)
| GraphQLErrors (errs : list gql_error).       (* f"GraphQL errors: {errs}" *)

Inductive exn :=
| RequestException                 (* requests.post: no answer *)
| JSONDecodeError                  (* resp.json() on a body that is not JSON *)
| RuntimeError (m : runtime_msg)
| AttributeError                   (* .get on None *)
| TypeError                        (* None > 0 *)
| UserError (cause : exn).         (* f"Failed to fetch categories from model: {e}" *)

Inductive outcome (A : Type) : Type :=
| Ret (a : A)
| Raise (e : exn)
| OutOfFuel.
Arguments Ret {A} a.
Arguments Raise {A} e.
Arguments OutOfFuel {A}.

Definition M (S A : Type) : Type := S -> S * outcome A.

Definition ret {S A} (a : A) : M S A := fun s => (s, Ret a).
Definition bind {S A B} (m : M S A) (k : A -> M S B) : M S B := fun s =>
  match m s with
  | (s', Ret a) => k a s'
  | (s', Raise e) => (s', Raise e)
  | (s', OutOfFuel) => (s', OutOfFuel)
  end.

Notation "'let*' x ':=' m 'in' k" := (bind m (fun x => k))
  (at level 10, x binder, m at level 100, k at level 200).

Definition raise {S A} (e : exn) : M S A := fun s => (s, Raise e).
Definition out_of_fuel {S A} : M S A := fun s => (s, OutOfFuel).

(** [try: body except Exception as e: handler e] *)
Definition try_except {S A} (body : M S A) (handler : exn -> M S A) : M S A :=
  fun s =>
    match body s with
    | (s', Raise e) => handler e s'
    | r => r
    end.

(** [x.get(...)] where [x] may be [None] *)
Definition as_dict {S A} (x : option A) : M S A :=
  match x with
  | Some a => ret a
  | None => raise AttributeError
  end.

(** [for x in l: body x] *)
Fixpoint for_each {S A} (l : list A) (body : A -> M S unit) : M S unit :=
  match l with
  | [] => ret tt
  | x :: l' => let* _ := body x in for_each l' body
  end.

(** ** Requests and responses *)

Definition AEC_GRAPHQL_URL : string :=
  "https://developer.api.autodesk.com/aec/graphql".

Inductive query_id := FamilyInstances | CategoryElements | UsedCategories.

(** [{"limit": limit}] or [{"cursor": cursor, "limit": limit}] *)
Record pagination_input := PaginationInput {
  pi_cursor : option string;
  pi_limit : Z
}.

Inductive variables :=
| PageVars (elementGroupId rsqlFilter : string) (pagination : pagination_input)
| CountVars (elementGroupId : string) (limit : Z)
| NoVars.                                        (* [variables or {}] *)

Record request := Request {
  req_url : string;
  req_authorization : string;      (* "Bearer " + token *)
  req_region : string;
  req_query : query_id;
  req_variables : variables;
  req_timeout : Z
}.

Record gql_body (D : Type) := GqlBody {
  errors : field (list gql_error);
  data : field D
}.
Arguments GqlBody {D}.
Arguments errors {D}.
Arguments data {D}.

Record http_response (D : Type) := HttpResponse {
  status_code : Z;
  text : string;
  json : option (gql_body D)      (* [None]: the body is not JSON *)
}.
Arguments HttpResponse {D}.
Arguments status_code {D}.
Arguments text {D}.
Arguments json {D}.

Inductive reply (D : Type) :=
| NoReply                          (* connection error or timeout *)
| Reply (r : http_response D).
Arguments NoReply {D}.
Arguments Reply {D} r.

(** The mutable state of one view invocation. *)
Record store (X : Type) := Store {
  sent : list request;
  warnings : list (string * exn);  (* category and exception of each warning *)
  items : list X
}.
Arguments Store {X}.
Arguments sent {X}.
Arguments warnings {X}.
Arguments items {X}.

Definition empty_store {X} : store X := Store [] [] [].

Definition log_request {X} (r : request) (s : store X) : store X :=
  Store (sent s ++ [r]) (warnings s) (items s).
Definition log_warning {X} (w : string * exn) (s : store X) : store X :=
  Store (sent s) (warnings s ++ [w]) (items s).
Definition append_item {X} (x : X) (s : store X) : store X :=
  Store (sent s) (warnings s) (items s ++ [x]).

Section Client.
Context {D : Type} `{Empty D} {X : Type}.
Variable api : nat -> reply D.

(** [requests.post(url, headers=..., json=..., timeout=...)]: the call is
    recorded and answered by the next reply of the API. *)
Definition requests_post (r : request) : M (store X) (http_response D) :=
  fun s =>
    match api (length (sent s)) with
    | NoReply => (log_request r s, Raise RequestException)
    | Reply resp => (log_request r s, Ret resp)
    end.

(** [resp.json()] *)
Definition resp_json (resp : http_response D) : M (store X) (gql_body D) :=
  match json resp with
  | Some b => ret b
  | None => raise JSONDecodeError
  end.

(** [execute_graphql(query, token, region, variables=None, timeout=30)] *)
Definition execute_graphql (query : query_id) (token region : string)
    (vars : option variables) (timeout : Z) : M (store X) (option D) :=
  let headers_authorization := "Bearer " +:+ token in
  let payload_variables := default NoVars vars in
  let* resp := requests_post
    (Request AEC_GRAPHQL_URL headers_authorization region query
       payload_variables timeout) in
  if bool_decide (status_code resp ≠ 200) then
    raise (RuntimeError (HttpStatus (status_code resp) (text resp)))
  else
    let* body := resp_json resp in
    match get (errors body) with
    | Some ((_ :: _) as errs) => raise (RuntimeError (GraphQLErrors errs))
    | Some [] | None => ret (get_default (data body) ∅)
    end.

End Client.

(** ** Element pages (queries [FamilyInstances] and [CategoryElements]) *)

Record property := Property {
  prop_name : field string;        (* "name" *)
  prop_value : field string        (* "value" *)
}.

Record property_block := PropertyBlock {
  prop_results : field (list property)
}.

Record alternative_identifiers := AlternativeIdentifiers {
  externalElementId : field string
}.

Record element := Element {
  name : field string;
  properties : field property_block;
  alternativeIdentifiers : field alternative_identifiers
}.

Record page_info := PageInfo {
  cursor : field string            (* "pageSize" is never read *)
}.

Record element_block := ElementBlock {
  pagination : field page_info;
  results : field (list element)
}.

Record elements_data := ElementsData {
  elementsByElementGroup : field element_block
}.

#[export] Instance property_block_empty : Empty property_block := PropertyBlock Absent.
#[export] Instance alternative_identifiers_empty : Empty alternative_identifiers :=
  AlternativeIdentifiers Absent.
#[export] Instance page_info_empty : Empty page_info := PageInfo Absent.
#[export] Instance element_block_empty : Empty element_block := ElementBlock Absent Absent.
#[export] Instance elements_data_empty : Empty elements_data := ElementsData Absent.

(** What one pass through the body of a [while True] loop decides. *)
Inductive loop_ctl :=
| Break
| Continue (cursor : option string).     (* [cursor = new_cursor] *)

(** [cursor = ...; while True: body], cut off after [fuel] passes. *)
Fixpoint while_true {S} (fuel : nat) (body : option string -> M S loop_ctl)
    (cursor_ : option string) : M S unit :=
  match fuel with
  | O => out_of_fuel
  | S fuel' =>
      let* ctl := body cursor_ in
      match ctl with
      | Break => ret tt
      | Continue c => while_true fuel' body c
      end
  end.

Definition limit : Z := 100.

Definition rsql_filter_for (category : string) : string :=
  "property.name.category=='" +:+ category +:+
  "' and 'property.name.Element Context'==Instance".

(** [{"limit": limit} if not cursor else {"cursor": cursor, "limit": limit}] *)
Definition pagination_for (cursor : option string) : pagination_input :=
  if negb (truthy cursor) then PaginationInput None limit
  else PaginationInput cursor limit.

(** [if not new_cursor or new_cursor == cursor or len(page_results) == 0] *)
Definition stop_condition (new_cursor cursor : option string)
    (page_results : list element) : bool :=
  negb (truthy new_cursor) || bool_decide (new_cursor = cursor)
  || bool_decide (length page_results = 0%nat).

(** ** [Controller.view_family_instances] *)

Record family_instance := FamilyInstance {
  fi_category : string;
  fi_family_name : string;
  fi_type_name : string;
  fi_element_name : option string        (* [None] is Python's None *)
}.

Definition family_categories : list string :=
  ["Structural Framing"; "Structural Columns"; "Walls"; "Floors"; "Doors";
   "Windows"].

(** The body of [for prop in properties], on the pair
    [(family_name, type_name)]. *)
Definition scan_property (names : string * string) (prop : property)
    : string * string :=
  let name_ := get_default (prop_name prop) "" in
  let value_ := get_default (prop_value prop) "" in
  if bool_decide (name_ = Some "Family Name") then
    (or_else value_ "Unknown", names.2)
  else if bool_decide (name_ = Some "Type Name") then
    (names.1, or_else value_ "Unknown")
  else names.

(** The body of [for element in page_results]. *)
Definition family_element (category : string) (e : element)
    : M (store family_instance) unit :=
  let element_name := get_default (name e) "Unknown" in
  let* props := as_dict (get_default (properties e) ∅) in
  let properties_ := or_else (get_default (prop_results props) []) [] in
  let names := foldl scan_property ("Unknown", "Unknown") properties_ in
  fun s =>
    (append_item (FamilyInstance category names.1 names.2 element_name) s,
     Ret tt).

Section FamilyInstances.
Variable api : nat -> reply elements_data.
Variables token region group_id : string.

(** One pass through the body of the [while True] loop. *)
Definition family_page (category : string) (cursor_ : option string)
    : M (store family_instance) loop_ctl :=
  let vars := PageVars group_id (rsql_filter_for category)
                (pagination_for cursor_) in
  let* data_ := execute_graphql api FamilyInstances token region (Some vars) 30 in
  let* d := as_dict data_ in
  let block := or_dict (get_default (elementsByElementGroup d) ∅) in
  let page_results := or_else (get_default (results block) []) [] in
  let* _ := for_each page_results (family_element category) in
  let page := or_dict (get_default (pagination block) ∅) in
  let new_cursor := get (cursor page) in
  if stop_condition new_cursor cursor_ page_results then ret Break
  else ret (Continue new_cursor).

(** The [while True] loop of one category, at most [fuel] passes. *)
Definition family_loop (fuel : nat) (category : string) (cursor_ : option string)
    : M (store family_instance) unit :=
  while_true fuel (family_page category) cursor_.

Inductive family_table :=
| NoInstancesFound                       (* the one-cell message table *)
| InstanceRows (rows : list (string * string * string * option string)).

Definition view_family_instances (fuel : nat)
    : M (store family_instance) family_table :=
  let* _ := for_each family_categories (fun category => family_loop fuel category None) in
  fun s =>
    match items s with
    | [] => (s, Ret NoInstancesFound)
    | all_instances =>
        (s, Ret (InstanceRows
                   ((fun i => (fi_category i, fi_family_name i, fi_type_name i,
                               fi_element_name i)) <$> all_instances)))
    end.

End FamilyInstances.

(** ** [Controller.view_colored_categories]: the highlight list *)

(** A row of [params.required_categories].  The colour is kept as its
    [.hex] string, the only attribute of it the code reads. *)
Record category_row := CategoryRow {
  row_category : string;
  row_color_hex : string
}.

(** An entry [{external_id: color_hex}] of [external_ids_with_colors]. *)
Definition highlight : Type := string * string.

(** [vkt.UserMessage.warning(f"Could not fetch elements for category
    '{category_name}': {str(e)}")] *)
Definition warning {X} (category_name : string) (e : exn) : M (store X) unit :=
  fun s => (log_warning (category_name, e) s, Ret tt).

(** The body of [for element in page_results]. *)
Definition colored_element (color_hex : string) (e : element)
    : M (store highlight) unit :=
  let* alt_ids := as_dict (get_default (alternativeIdentifiers e) ∅) in
  let external_id := get (externalElementId alt_ids) in
  match external_id with
  | Some eid =>
      if truthy eid then fun s => (append_item (eid, color_hex) s, Ret tt)
      else ret tt
  | None => ret tt
  end.

Section ColoredCategories.
Variable api : nat -> reply elements_data.
Variables token region group_id : string.

(** One pass through the body of the [while True] loop, with its
    [try]/[except]. *)
Definition colored_page (row : category_row) (cursor_ : option string)
    : M (store highlight) loop_ctl :=
  let category_name := row_category row in
  let color_hex := row_color_hex row in
  let vars := PageVars group_id (rsql_filter_for category_name)
                (pagination_for cursor_) in
  try_except
    (let* data_ := execute_graphql api CategoryElements token region (Some vars) 30 in
     let* d := as_dict data_ in
     let block := or_dict (get_default (elementsByElementGroup d) ∅) in
     let page_results := or_else (get_default (results block) []) [] in
     let* _ := for_each page_results (colored_element color_hex) in
     let page := or_dict (get_default (pagination block) ∅) in
     let new_cursor := get (cursor page) in
     if stop_condition new_cursor cursor_ page_results then ret Break
     else ret (Continue new_cursor))
    (fun e =>
       let* _ := warning category_name e in
       ret Break).

(** The [while True] loop of one row, at most [fuel] passes. *)
Definition colored_loop (fuel : nat) (row : category_row) (cursor_ : option string)
    : M (store highlight) unit :=
  while_true fuel (colored_page row) cursor_.

(** The list handed to [json.dumps]. *)
Definition view_colored_categories (fuel : nat) (required_categories : list category_row)
    : M (store highlight) (list highlight) :=
  let* _ := for_each required_categories (fun row => colored_loop fuel row None) in
  fun s => (s, Ret (items s)).

End ColoredCategories.

(** ** Category counts (query [UsedCategories]) *)

Record distinct_value := DistinctValue {
  dv_value : field string;         (* "value" *)
  dv_count : field Z               (* "count" *)
}.

Record distinct_result := DistinctResult {
  dr_values : field (list distinct_value)
}.

Record distinct_block := DistinctBlock {
  db_results : field (list distinct_result)
}.

Record categories_data := CategoriesData {
  distinctPropertyValuesInElementGroupByName : field distinct_block
}.

#[export] Instance distinct_block_empty : Empty distinct_block := DistinctBlock Absent.
#[export] Instance categories_data_empty : Empty categories_data := CategoriesData Absent.

(** The master list, identical in the three reconciliation methods. *)
Definition all_categories : list string :=
  ["Structural Framing"; "Structural Columns"; "Structural Foundations";
   "Walls"; "Floors"; "Roofs"; "Ceilings"; "Doors"; "Windows"; "Stairs";
   "Railings"; "Curtain Panels"; "Curtain Wall Mullions"; "Furniture";
   "Mechanical Equipment"; "Plumbing Fixtures"; "Lighting Fixtures";
   "Electrical Equipment"; "Ducts"; "Pipes"].

(** The body of [for v in values].  A stored count of [None] is Python's
    None (a [null] count in the response). *)
Definition add_value (counts : gmap string (option Z)) (v : distinct_value)
    : gmap string (option Z) :=
  let category_name := get_default (dv_value v) "" in
  let element_count := get_default (dv_count v) 0 in
  match category_name with
  | Some key => if truthy key then <[key := element_count]> counts else counts
  | None => counts
  end.

(** The body of [for r in results_list]. *)
Definition add_result (counts : gmap string (option Z)) (r : distinct_result)
    : gmap string (option Z) :=
  let values := or_else (get (dr_values r)) [] in
  foldl add_value counts values.

(** [model_category_counts = {}] and the two nested loops filling it;
    the same text occurs in [view_category_summary],
    [view_category_data] and [download_category_report]. *)
Definition model_category_counts (results_list : list distinct_result)
    : gmap string (option Z) :=
  foldl add_result ∅ results_list.

(** [set(row["category"] for row in params.required_categories)] *)
Definition required_set (rows : list category_row) : gset string :=
  list_to_set (row_category <$> rows).

(** [element_count > 0] *)
Definition gt_zero {S} (element_count : option Z) : M S bool :=
  match element_count with
  | Some n => ret (bool_decide (0 < n))
  | None => raise TypeError
  end.

(** [model_category_counts.get(category_name, 0)] *)
Definition count_of (counts : gmap string (option Z)) (category_name : string)
    : option Z :=
  default (Some 0) (counts !! category_name).

Section Reconciliation.
Context {X : Type}.
Variable api : nat -> reply categories_data.
Variables token region group_id : string.

(** The [try]/[except] block that queries the model once. *)
Definition fetch_counts : M (store X) (gmap string (option Z)) :=
  try_except
    (let vars := CountVars group_id 1000 in
     let* data_ := execute_graphql api UsedCategories token region (Some vars) 30 in
     let* d := as_dict data_ in
     let block := or_dict (get (distinctPropertyValuesInElementGroupByName d)) in
     let results_list := or_else (get (db_results block)) [] in
     ret (model_category_counts results_list))
    (fun e => raise (UserError e)).

(** *** [Controller.view_category_summary] *)

(** One row of [table_data]:
    [[category_name, status_cell, element_count, status_text]]. *)
Record summary_row := SummaryRow {
  sr_category : string;
  sr_symbol : string;
  sr_color : Z * Z * Z;
  sr_count : option Z;
  sr_text : string
}.

(** The body of [for category_name in all_categories]. *)
Definition summary_row_for (required_categories : gset string)
    (counts : gmap string (option Z)) (category_name : string)
    : M (store X) summary_row :=
  let element_count := count_of counts category_name in
  let* in_model := gt_zero element_count in
  let in_contract := bool_decide (category_name ∈ required_categories) in
  let status :=
    if in_contract && in_model then
      ("✓", "Present in contract and model", (0, 128, 0))
    else if in_contract && negb in_model then
      ("✗", "In contract but not in model", (255, 165, 0))
    else if negb in_contract && in_model then
      ("✗", "Missing in the contract", (255, 0, 0))
    else
      ("✗", "Not in contract, not in model", (128, 128, 128)) in
  ret (SummaryRow category_name status.1.1 status.2 element_count status.1.2).

(** [for x in l: out.append(f x)] *)
Fixpoint map_each {A B} (l : list A) (f : A -> M (store X) B)
    : M (store X) (list B) :=
  match l with
  | [] => ret []
  | x :: l' =>
      let* y := f x in
      let* ys := map_each l' f in
      ret (y :: ys)
  end.

Definition view_category_summary (rows : list category_row)
    : M (store X) (list summary_row) :=
  let required_categories := required_set rows in
  let* counts := fetch_counts in
  map_each all_categories (summary_row_for required_categories counts).

(** *** [Controller.view_category_data] *)

Inductive data_status := SUCCESS | WARNING | ERROR | INFO.

(** The value shown by a [DataItem]: the count, or the literal ["0"]. *)
Inductive item_value :=
| CountValue (element_count : option Z)
| ZeroText.

Record data_item := DataItem {
  di_label : string;
  di_value : item_value;
  di_status : data_status;
  di_message : string
}.

(** The four [vkt.DataGroup]s filled by the loop. *)
Record category_groups := CategoryGroups {
  present_group : list data_item;
  missing_from_model_group : list data_item;
  missing_from_contract_group : list data_item;
  not_applicable_group : list data_item
}.

Definition no_groups : category_groups := CategoryGroups [] [] [] [].

(** The body of [for category_name in all_categories]. *)
Definition group_category (required_categories : gset string)
    (counts : gmap string (option Z)) (groups : category_groups)
    (category_name : string) : M (store X) category_groups :=
  let element_count := count_of counts category_name in
  let* in_model := gt_zero element_count in
  let in_contract := bool_decide (category_name ∈ required_categories) in
  if in_contract && in_model then
    ret (CategoryGroups
           (present_group groups ++
              [DataItem category_name (CountValue element_count) SUCCESS
                 "✓ Present in contract and model"])
           (missing_from_model_group groups)
           (missing_from_contract_group groups)
           (not_applicable_group groups))
  else if in_contract && negb in_model then
    ret (CategoryGroups
           (present_group groups)
           (missing_from_model_group groups ++
              [DataItem category_name ZeroText ERROR
                 "✗ In contract but not in model"])
           (missing_from_contract_group groups)
           (not_applicable_group groups))
  else if negb in_contract && in_model then
    ret (CategoryGroups
           (present_group groups)
           (missing_from_model_group groups)
           (missing_from_contract_group groups ++
              [DataItem category_name (CountValue element_count) WARNING
                 "✗ Missing in the contract"])
           (not_applicable_group groups))
  else
    ret (CategoryGroups
           (present_group groups)
           (missing_from_model_group groups)
           (missing_from_contract_group groups)
           (not_applicable_group groups ++
              [DataItem category_name ZeroText INFO
                 "Not in contract, not in model"])).

(** [for x in l: acc = body acc x] *)
Fixpoint fold_each {A B} (l : list A) (body : B -> A -> M (store X) B) (acc : B)
    : M (store X) B :=
  match l with
  | [] => ret acc
  | x :: l' =>
      let* acc' := body acc x in
      fold_each l' body acc'
  end.

(** [sum(1 for cat in cats if model_category_counts.get(cat, 0) > 0)] *)
Definition count_in_model (counts : gmap string (option Z)) (cats : list string)
    : M (store X) nat :=
  fold_each cats
    (fun n cat =>
       let* positive := gt_zero (count_of counts cat) in
       ret (if positive then S n else n)) O.

Record data_summary := DataSummary {
  total_categories : nat;
  categories_in_model : nat;
  categories_in_contract : nat;
  categories_matched : nat;
  matched_status : data_status
}.

(** The result: the summary group and the non-empty category groups,
    each under its title. *)
Record data_result := DataResult {
  dr_summary : data_summary;
  dr_groups : list (string * list data_item)
}.

Definition titled_if_nonempty (title : string) (group : list data_item)
    : list (string * list data_item) :=
  if bool_decide (0 < length group)%nat then [(title, group)] else [].

Definition view_category_data (rows : list category_row)
    : M (store X) data_result :=
  let required_categories := required_set rows in
  let* counts := fetch_counts in
  let total := length all_categories in
  let* in_model := count_in_model counts all_categories in
  let in_contract := size required_categories in
  let* matched := count_in_model counts (elements required_categories) in
  let summary :=
    DataSummary total in_model in_contract matched
      (if bool_decide (matched = in_contract) then SUCCESS else WARNING) in
  let* groups :=
    fold_each all_categories (group_category required_categories counts)
      no_groups in
  ret (DataResult summary
         (titled_if_nonempty "✓ Present (Contract & Model)" (present_group groups) ++
          titled_if_nonempty "✗ Missing from Model" (missing_from_model_group groups) ++
          titled_if_nonempty "⚠ Missing from Contract" (missing_from_contract_group groups) ++
          titled_if_nonempty "○ Not Applicable" (not_applicable_group groups))).

End Reconciliation.

(** ** Vocabulary of the statements *)


(** The data object a pagination pass works on: what [execute_graphql]
    returns for this reply, when it returns a dictionary. *)
Definition fetched {D} `{Empty D} (r : reply D) : option D :=
  match r with
  | NoReply => None
  | Reply resp =>
      if bool_decide (status_code resp = 200) then
        match json resp with
        | Some body =>
            match get (errors body) with
            | Some (_ :: _) => None
            | Some [] | None => get_default (data body) ∅
            end
        | None => None
        end
      else None
  end.

(** The page and the cursor a pass reads from a data object. *)
Definition block_of (d : elements_data) : element_block :=
  or_dict (get_default (elementsByElementGroup d) ∅).
Definition page_results_of (d : elements_data) : list element :=
  or_else (get_default (results (block_of d)) []) [].
Definition new_cursor_of (d : elements_data) : option string :=
  get (cursor (or_dict (get_default (pagination (block_of d)) ∅))).

(** The request a pagination pass sends. *)
Definition page_request (query : query_id) (token region group_id category : string)
    (cursor_ : option string) : request :=
  Request AEC_GRAPHQL_URL ("Bearer " +:+ token) region query
    (PageVars group_id (rsql_filter_for category) (pagination_for cursor_)) 30.

(** What the body of a [for element in page_results] loop appends for
    one element, read off the code itself: [None] when the body raises. *)
Definition element_effect {X} (body : element -> M (store X) unit) (e : element)
    : option (list X) :=
  match body e empty_store with
  | (s, Ret _) => Some (items s)
  | _ => None
  end.

(** What the loop appends for a page: the effects of its elements up to
    the first one that raises, and whether the whole page went through. *)
Fixpoint collect {X} (body : element -> M (store X) unit) (l : list element)
    : list X * bool :=
  match l with
  | [] => ([], true)
  | e :: l' =>
      match element_effect body e with
      | Some xs => ((xs ++ (collect body l').1)%list, (collect body l').2)
      | None => ([], false)
      end
  end.

Definition add_items {X} (xs : list X) (s : store X) : store X :=
  Store (sent s) (warnings s) (items s ++ xs).

(** The cursor the [n]-th reply hands back, if that reply is a page with
    a cursor in it. *)
Definition new_cursor_at (api : nat -> reply elements_data) (n : nat)
    : option string :=
  d ← fetched (api n); new_cursor_of d.

(** The decision at the end of a pass. *)
Definition page_ctl (d : elements_data) (cursor_ : option string) : loop_ctl :=
  if stop_condition (new_cursor_of d) cursor_ (page_results_of d) then Break
  else Continue (new_cursor_of d).


(** The stop rule of the code: as above, and also on a cursor that is
    the empty string. *)
Definition code_stop (returned previous : option string)
    (page_results : list element) : Prop :=
  returned = None ∨ returned = Some "" ∨ returned = previous ∨ page_results = [].


(** Some cursor comes back twice in the sequence of replies. *)
Definition cursors_repeat (api : nat -> reply elements_data) : Prop :=
  ∃ i j, (i < j)%nat ∧ is_Some (new_cursor_at api i) ∧
         new_cursor_at api i = new_cursor_at api j.

(** A fuelled computation terminates from [s]: some fuel is enough. *)
Definition terminates {S A} (run : nat -> M S A) (s : S) : Prop :=
  ∃ fuel, (run fuel s).2 ≠ OutOfFuel.

(** What a pass appends when it is answered by the reply [r]. *)
Definition page_items {X} (elt : element -> M (store X) unit)
    (r : reply elements_data) : list X :=
  match fetched r with
  | Some d => (collect elt (page_results_of d)).1
  | None => []
  end.

(** What a run appends whose passes, answered by the replies [from],
    [from + 1], ..., were made for the keys [keys] (categories of the
    family view, rows of the colored view). *)
Fixpoint trace_items {K X} (elt : K -> element -> M (store X) unit)
    (api : nat -> reply elements_data) (from : nat) (keys : list K) : list X :=
  match keys with
  | [] => []
  | k :: keys' => page_items (elt k) (api from) ++ trace_items elt api (S from) keys'
  end.

(** Every pass of the run was answered by a page, and every element of
    that page went through the loop body. *)
Fixpoint all_complete {K X} (elt : K -> element -> M (store X) unit)
    (api : nat -> reply elements_data) (from : nat) (keys : list K) : Prop :=
  match keys with
  | [] => True
  | k :: keys' =>
      (∃ d, fetched (api from) = Some d ∧
            (collect (elt k) (page_results_of d)).2 = true) ∧
      all_complete elt api (S from) keys'
  end.

(** The non-empty external id of an element, when it has one. *)
Definition external_id_of (e : element) : option string :=
  match get_default (alternativeIdentifiers e) ∅ with
  | Some a =>
      match get (externalElementId a) with
      | Some eid => if truthy eid then Some eid else None
      | None => None
      end
  | None => None
  end.

(** The elements of the pages a run fetched, each with the key of the
    pass that fetched it, in the order of the replies and of each page. *)
Definition page_elements (r : reply elements_data) : list element :=
  match fetched r with
  | Some d => page_results_of d
  | None => []
  end.

Fixpoint trace_elements {K} (api : nat -> reply elements_data) (from : nat)
    (keys : list K) : list (K * element) :=
  match keys with
  | [] => []
  | k :: keys' =>
      ((fun e => (k, e)) <$> page_elements (api from)) ++
      trace_elements api (S from) keys'
  end.


(** A run from [s] to [s'] made the passes [passes] (the key and the
    cursor of each request, in order): it sent their requests and
    appended what their replies yield. *)
Definition run_of {K X} (api : nat -> reply elements_data)
    (elt : K -> element -> M (store X) unit) (req : K -> option string -> request)
    (passes : list (K * option string)) (s s' : store X) : Prop :=
  sent s' = sent s ++ ((fun p => req p.1 p.2) <$> passes) ∧
  items s' = items s ++ trace_items elt api (length (sent s)) passes.*1.

(** The entries of the aggregate response in the order the two nested
    loops visit them. *)
Definition all_values (results_list : list distinct_result) : list distinct_value :=
  r ← results_list; or_else (get (dr_values r)) [].

(** The category name of an entry when it is not empty, and the count
    the entry reports. *)
Definition value_name (v : distinct_value) : option string :=
  match get_default (dv_value v) "" with
  | Some key => if truthy key then Some key else None
  | None => None
  end.
Definition value_count (v : distinct_value) : option Z :=
  get_default (dv_count v) 0.

(** The results list the reconciliation reads from a data object. *)
Definition results_list_of (d : categories_data) : list distinct_result :=
  or_else (get (db_results (or_dict (get (distinctPropertyValuesInElementGroupByName d))))) [].

(** The one request of a reconciliation view. *)
Definition counts_request (token region group_id : string) : request :=
  Request AEC_GRAPHQL_URL ("Bearer " +:+ token) region UsedCategories
    (CountVars group_id 1000) 30.

(** A computation that neither reads nor changes the store. *)
Definition pure_M {S A} (m : M S A) : Prop := ∃ o, ∀ s, m s = (s, o).

(** The classification table of the specification. *)
Inductive classification :=
| PresentInContractAndModel
| InContractMissingFromModel
| InModelMissingFromContract
| NeitherInContractNorModel.

#[export] Instance classification_eq_dec : EqDecision classification.
Proof. solve_decision. Defined.

Definition classify (in_contract in_model : bool) : classification :=
  match in_contract, in_model with
  | true, true => PresentInContractAndModel
  | true, false => InContractMissingFromModel
  | false, true => InModelMissingFromContract
  | false, false => NeitherInContractNorModel
  end.

(** The category appears among the user-declared required categories. *)
Definition in_contract (rows : list category_row) (category_name : string) : bool :=
  bool_decide (category_name ∈ row_category <$> rows).


(** The group of the data view that stands for a classification: its
    list while the loop runs, and its title in the result. *)
Definition group_of (c : classification) (groups : category_groups)
    : list data_item :=
  match c with
  | PresentInContractAndModel => present_group groups
  | InContractMissingFromModel => missing_from_model_group groups
  | InModelMissingFromContract => missing_from_contract_group groups
  | NeitherInContractNorModel => not_applicable_group groups
  end.

Definition group_title (c : classification) : string :=
  match c with
  | PresentInContractAndModel => "✓ Present (Contract & Model)"
  | InContractMissingFromModel => "✗ Missing from Model"
  | InModelMissingFromContract => "⚠ Missing from Contract"
  | NeitherInContractNorModel => "○ Not Applicable"
  end.

(** Every count the mapping holds is an integer (none is Python's None). *)
Definition counts_are_numbers (counts : gmap string (option Z)) : Prop :=
  ∀ k, counts !! k ≠ Some None.

(** The classification of a category under the given rows and counts;
    a count that is not a number counts as "not in the model" here, the
    code raises on it. *)
Definition class_of (rows : list category_row) (counts : gmap string (option Z))
    (category_name : string) : classification :=
  classify (in_contract rows category_name)
    (match count_of counts category_name with
     | Some n => bool_decide (0 < n)
     | None => false
     end).

(** The name the family-instances loop settles on for the properties
    called [key]: the value of the last of them when it is not empty,
    and "Unknown" otherwise. *)
Definition name_from (key : string) (props : list property) : string :=
  match last (filter (fun p => get_default (prop_name p) "" = Some key) props) with
  | Some p => or_else (get_default (prop_value p) "") "Unknown"
  | None => "Unknown"
  end.

(** ** Sample replies *)

Definition beam : element :=
  Element (Val "Beam 1")
    (Val (PropertyBlock
            (Val [Property (Val "Family Name") (Val "W-Wide Flange");
                  Property (Val "Type Name") (Val "W12x26")])))
    (Val (AlternativeIdentifiers (Val "e-1"))).

(** A reply that is a page: status 200, no errors, the given cursor
    field and results. *)
Definition page_data (c : field string) (els : list element) : elements_data :=
  ElementsData (Val (ElementBlock (Val (PageInfo c)) (Val els))).
Definition page (c : field string) (els : list element) : reply elements_data :=
  Reply (HttpResponse 200 "" (Some (GqlBody Absent (Val (page_data c els))))).

(** An API that never runs out of elements and hands back the cursors
    "A", "B", "A", "B", ... *)
Definition letter (n : nat) : string := if Nat.even n then "A" else "B".
Definition alternating (n : nat) : reply elements_data :=
  page (Val (letter n)) [beam].


(** An element whose name and property values are empty strings. *)
Definition unnamed : element :=
  Element (Val "")
    (Val (PropertyBlock
            (Val [Property (Val "Family Name") (Val "");
                  Property (Val "Type Name") (Val "")])))
    Absent.

(** An aggregate response: walls reported twice, an entry without a
    name, and doors. *)
Definition sample_counts : categories_data :=
  CategoriesData (Val (DistinctBlock (Val
    [DistinctResult (Val [DistinctValue (Val "Walls") (Val 1);
                          DistinctValue (Val "") (Val 8);
                          DistinctValue (Val "Walls") (Val 3);
                          DistinctValue (Val "Doors") (Val 2)])]))).
Definition counts_api (n : nat) : reply categories_data :=
  Reply (HttpResponse 200 "" (Some (GqlBody Absent (Val sample_counts)))).

Definition sample_rows : list category_row :=
  [CategoryRow "Structural Framing" "#ff0000";
   CategoryRow "Structural Columns" "#0000ff";
   CategoryRow "Walls" "#00ff00"].

(** ** [Controller.download_category_report]: the table of the document *)

(** [f"{element_count}"] *)
Definition py_str (v : option Z) : string :=
  match v with
  | Some n => pretty n
  | None => "None"
  end.

(** A data row of the document's table: the three cell texts and the
    colour given to the status symbol. *)
Record report_row := ReportRow {
  rr_category : string;
  rr_symbol : string;
  rr_text : string;
  rr_color : Z * Z * Z
}.

(** The table: its header row and its data rows.  The title, the time
    stamps, the legend and the file name of the document are not part
    of the model. *)
Record report_table := ReportTable {
  report_header : list string;
  report_rows : list report_row
}.

Section Report.
Context {X : Type}.
Variable api : nat -> reply categories_data.
Variables token region group_id : string.

(** The body of [for category_name in all_categories]. *)
Definition report_row_for (required_categories : gset string)
    (counts : gmap string (option Z)) (category_name : string)
    : M (store X) report_row :=
  let element_count := count_of counts category_name in
  let* in_model := gt_zero element_count in
  let in_contract := bool_decide (category_name ∈ required_categories) in
  let status :=
    if in_contract && in_model then
      ("✓", "Present (" +:+ py_str element_count +:+ " elements)", (0, 128, 0))
    else if in_contract && negb in_model then
      ("✗", "In contract but not in model", (255, 165, 0))
    else if negb in_contract && in_model then
      ("✗", "Missing in the contract", (255, 0, 0))
    else
      ("✗", "Not in contract, not in model", (128, 128, 128)) in
  ret (ReportRow category_name status.1.1 status.1.2 status.2).

Definition download_category_report (rows : list category_row)
    : M (store X) report_table :=
  let required_categories := required_set rows in
  let* counts := fetch_counts api token region group_id in
  let* data_rows :=
    map_each all_categories (report_row_for required_categories counts) in
  ret (ReportTable ["Category"; "Status"; "Description"] data_rows).

End Report.

(** ** Vocabulary of the further properties *)

(** The cursors of the successive requests of one loop, the first of
    them answered by the reply [from]: each cursor after the first is
    the one the reply to the request before it handed back, is not
    empty, and differs from the cursor of that request. *)
Fixpoint chained (api : nat -> reply elements_data) (from : nat)
    (cursors : list (option string)) : Prop :=
  match cursors with
  | [] => True
  | c1 :: rest =>
      match rest with
      | [] => True
      | c2 :: _ =>
          c2 = new_cursor_at api from ∧ c2 ≠ c1 ∧ truthy c2 = true
      end ∧
      chained api (S from) rest
  end.

(** The reply [n] ends a pagination whatever the cursor of its request:
    it is no usable page, or a page without a cursor, or without
    results. *)
Definition exhausted (api : nat -> reply elements_data) (n : nat) : Prop :=
  ∀ d, fetched (api n) = Some d ->
       new_cursor_of d = None ∨ new_cursor_of d = Some "" ∨ page_results_of d = [].

(** Every reply is a page without a cursor. *)
Definition single_pages (api : nat -> reply elements_data) : Prop :=
  ∀ n, ∃ d, fetched (api n) = Some d ∧ new_cursor_of d = None.

(** No element of any page has null properties. *)
Definition well_formed_pages (api : nat -> reply elements_data) : Prop :=
  ∀ n d, fetched (api n) = Some d ->
         Forall (fun e => properties e ≠ Null) (page_results_of d).

(** The count of a category is a number greater than zero. *)
Definition in_model (counts : gmap string (option Z)) (category_name : string)
    : bool :=
  match count_of counts category_name with
  | Some n => bool_decide (0 < n)
  | None => false
  end.

(** A row of the summary table and a row of the document agree: same
    category, symbol and colour, and the same description, except that
    the document words "present" with the count. *)
Definition rows_agree (row : summary_row) (rr : report_row) : Prop :=
  sr_category row = rr_category rr ∧
  sr_symbol row = rr_symbol rr ∧
  sr_color row = rr_color rr ∧
  (sr_text row = rr_text rr ∨
   ∃ n, sr_count row = Some n ∧ 0 < n ∧
        sr_text row = "Present in contract and model" ∧
        rr_text rr = "Present (" +:+ pretty n +:+ " elements)").

(** Two computations end the same way: both return, with related
    results, or both raise the same exception, or both run out of fuel. *)
Definition same_ending {A B} (R : A -> B -> Prop) (o1 : outcome A) (o2 : outcome B)
    : Prop :=
  match o1, o2 with
  | Ret a, Ret b => R a b
  | Raise e1, Raise e2 => e1 = e2
  | OutOfFuel, OutOfFuel => True
  | _, _ => False
  end.

(** An API that is down, for either kind of query. *)
Definition unavailable {D} (n : nat) : reply D :=
  Reply (HttpResponse 500 "unavailable" None).

(** An aggregate response with a null count for "Walls". *)
Definition null_count : categories_data :=
  CategoriesData (Val (DistinctBlock (Val
    [DistinctResult (Val [DistinctValue (Val "Walls") Null;
                          DistinctValue (Val "Doors") (Val 2)])]))).
Definition null_count_api (n : nat) : reply categories_data :=
  Reply (HttpResponse 200 "" (Some (GqlBody Absent (Val null_count)))).

(** An aggregate response like [sample_counts], with a category that is
    not in the master list in addition. *)
Definition sample_counts_more : categories_data :=
  CategoriesData (Val (DistinctBlock (Val
    [DistinctResult (Val [DistinctValue (Val "Generic Models") (Val 40);
                          DistinctValue (Val "Walls") (Val 3);
                          DistinctValue (Val "Doors") (Val 2)])]))).
Definition counts_more_api (n : nat) : reply categories_data :=
  Reply (HttpResponse 200 "" (Some (GqlBody Absent (Val sample_counts_more)))).

(** What an item of the data view shows in the group of a
    classification: a count above zero and the success or warning status
    where the category is in the model, the text "0" and the error or
    info status where it is not. *)
Definition item_fits (c : classification) (item : data_item) : Prop :=
  match c with
  | PresentInContractAndModel =>
      di_status item = SUCCESS ∧ ∃ n, di_value item = CountValue (Some n) ∧ 0 < n
  | InContractMissingFromModel =>
      di_status item = ERROR ∧ di_value item = ZeroText
  | InModelMissingFromContract =>
      di_status item = WARNING ∧ ∃ n, di_value item = CountValue (Some n) ∧ 0 < n
  | NeitherInContractNorModel =>
      di_status item = INFO ∧ di_value item = ZeroText
  end.

(** ** The client helper *)

Section ClientFacts.
Context {D : Type} `{Empty D} {X : Type}.
Variable api : nat -> reply D.

Lemma execute_graphql_sent query token region vars timeout (s : store X) :
  (execute_graphql api query token region vars timeout s).1 =
  log_request
    (Request AEC_GRAPHQL_URL ("Bearer " +:+ token) region query
       (default NoVars vars) timeout) s.
Proof.
  unfold execute_graphql, bind, requests_post.
  destruct (api (length (sent s))) as [|resp]; [done|].
  case_bool_decide; [done|].
  unfold resp_json. destruct (json resp) as [body|]; [|done].
  cbn. destruct (get (errors body)) as [[|e es]|]; done.
Qed.

Lemma execute_graphql_fetched query token region vars timeout (s : store X) d :
  fetched (api (length (sent s))) = Some d ->
  (execute_graphql api query token region vars timeout s).2 = Ret (Some d).
Proof.
  unfold fetched, execute_graphql, bind, requests_post, resp_json.
  destruct (api (length (sent s))) as [|resp]; [done|].
  repeat case_bool_decide; try done.
  destruct (json resp) as [body|]; [|done].
  cbn. destruct (get (errors body)) as [[|e es]|]; cbn; congruence.
Qed.

Lemma execute_graphql_not_fetched query token region vars timeout (s : store X) :
  fetched (api (length (sent s))) = None ->
  (∃ e, (execute_graphql api query token region vars timeout s).2 = Raise e) ∨
  (execute_graphql api query token region vars timeout s).2 = Ret None.
Proof.
  unfold fetched, execute_graphql, bind, requests_post, resp_json.
  destruct (api (length (sent s))) as [|resp]; [left; eauto|].
  repeat case_bool_decide; try done; [|left; eauto].
  destruct (json resp) as [body|]; [|left; eauto].
  cbn. destruct (get (errors body)) as [[|e es]|]; cbn; intros Hd;
    try (left; eauto; fail); right; by rewrite Hd.
Qed.


End ClientFacts.

(** ** Pages and their elements *)

Lemma add_items_nil {X} (s : store X) : add_items [] s = s.
Proof. destruct s. unfold add_items. cbn. by rewrite app_nil_r. Qed.

Lemma add_items_app {X} (xs ys : list X) (s : store X) :
  add_items ys (add_items xs s) = add_items (xs ++ ys) s.
Proof. unfold add_items. cbn. by rewrite app_assoc. Qed.

Lemma family_element_effect category e (s : store family_instance) :
  family_element category e s =
  match element_effect (family_element category) e with
  | Some xs => (add_items xs s, Ret tt)
  | None => (s, Raise AttributeError)
  end.
Proof.
  unfold element_effect, family_element, bind, as_dict.
  destruct (properties e); cbn; done.
Qed.

Lemma colored_element_effect color_hex e (s : store highlight) :
  colored_element color_hex e s =
  match element_effect (colored_element color_hex) e with
  | Some xs => (add_items xs s, Ret tt)
  | None => (s, Raise AttributeError)
  end.
Proof.
  unfold element_effect, colored_element, bind, as_dict.
  destruct (alternativeIdentifiers e) as [| |a]; cbn; try done.
  - by rewrite add_items_nil.
  - destruct (get (externalElementId a)) as [eid|]; cbn;
      [destruct (truthy eid)|]; cbn; by rewrite ?add_items_nil.
Qed.

Section ForEach.
Context {X : Type}.
Variable body : element -> M (store X) unit.
Hypothesis body_effect : ∀ e s,
  body e s =
  match element_effect body e with
  | Some xs => (add_items xs s, Ret tt)
  | None => (s, Raise AttributeError)
  end.

Lemma for_each_collect (l : list element) (s : store X) :
  for_each l body s =
  (add_items (collect body l).1 s,
   if (collect body l).2 then Ret tt else Raise AttributeError).
Proof.
  revert s. induction l as [|e l IH]; intros s; cbn.
  - by rewrite add_items_nil.
  - unfold bind. rewrite body_effect.
    destruct (element_effect body e) as [xs|]; cbn.
    + by rewrite IH, add_items_app.
    + by rewrite add_items_nil.
Qed.

End ForEach.

Section PageFacts.
Variable api : nat -> reply elements_data.
Variables token region group_id : string.

Lemma family_page_fetched category cursor_ (s : store family_instance) d :
  fetched (api (length (sent s))) = Some d ->
  family_page api token region group_id category cursor_ s =
  let s1 := log_request
              (page_request FamilyInstances token region group_id category cursor_) s in
  let c := collect (family_element category) (page_results_of d) in
  (add_items c.1 s1, if c.2 then Ret (page_ctl d cursor_) else Raise AttributeError).
Proof.
  intros Hd. unfold family_page, bind.
  destruct (execute_graphql _ _ _ _ _ _ s) as [s1 o] eqn:Hex.
  pose proof (execute_graphql_sent api FamilyInstances token region
                (Some (PageVars group_id (rsql_filter_for category)
                         (pagination_for cursor_))) 30 s) as H1.
  pose proof (execute_graphql_fetched api FamilyInstances token region
                (Some (PageVars group_id (rsql_filter_for category)
                         (pagination_for cursor_))) 30 s d Hd) as H2.
  rewrite Hex in H1, H2. cbn in H1, H2. subst s1 o. cbn.
  rewrite (for_each_collect _ (family_element_effect category)).
  fold (block_of d). fold (page_results_of d). fold (new_cursor_of d).
  unfold page_request, page_ctl.
  destruct (collect _ _).2; [|done].
  by destruct (stop_condition _ _ _).
Qed.

Lemma family_page_failed category cursor_ (s : store family_instance) :
  fetched (api (length (sent s))) = None ->
  ∃ e, family_page api token region group_id category cursor_ s =
       (log_request
          (page_request FamilyInstances token region group_id category cursor_) s,
        Raise e).
Proof.
  intros Hd. unfold family_page, bind.
  destruct (execute_graphql _ _ _ _ _ _ s) as [s1 o] eqn:Hex.
  pose proof (execute_graphql_sent api FamilyInstances token region
                (Some (PageVars group_id (rsql_filter_for category)
                         (pagination_for cursor_))) 30 s) as H1.
  pose proof (execute_graphql_not_fetched api FamilyInstances token region
                (Some (PageVars group_id (rsql_filter_for category)
                         (pagination_for cursor_))) 30 s Hd) as H2.
  rewrite Hex in H1, H2. cbn in H1, H2. subst s1.
  destruct H2 as [[e ->]| ->]; cbn; eauto.
Qed.

Lemma colored_page_fetched row cursor_ (s : store highlight) d :
  fetched (api (length (sent s))) = Some d ->
  colored_page api token region group_id row cursor_ s =
  let s1 := log_request
              (page_request CategoryElements token region group_id
                 (row_category row) cursor_) s in
  let c := collect (colored_element (row_color_hex row)) (page_results_of d) in
  if c.2 then (add_items c.1 s1, Ret (page_ctl d cursor_))
  else (log_warning (row_category row, AttributeError) (add_items c.1 s1),
        Ret Break).
Proof.
  intros Hd. unfold colored_page, try_except, bind.
  destruct (execute_graphql _ _ _ _ _ _ s) as [s1 o] eqn:Hex.
  pose proof (execute_graphql_sent api CategoryElements token region
                (Some (PageVars group_id (rsql_filter_for (row_category row))
                         (pagination_for cursor_))) 30 s) as H1.
  pose proof (execute_graphql_fetched api CategoryElements token region
                (Some (PageVars group_id (rsql_filter_for (row_category row))
                         (pagination_for cursor_))) 30 s d Hd) as H2.
  rewrite Hex in H1, H2. cbn in H1, H2. subst s1 o. cbn.
  rewrite (for_each_collect _ (colored_element_effect (row_color_hex row))).
  fold (block_of d). fold (page_results_of d). fold (new_cursor_of d).
  unfold page_request, page_ctl.
  destruct (collect _ _).2; [|done].
  by destruct (stop_condition _ _ _).
Qed.

Lemma colored_page_failed row cursor_ (s : store highlight) :
  fetched (api (length (sent s))) = None ->
  ∃ e, colored_page api token region group_id row cursor_ s =
       (log_warning (row_category row, e)
          (log_request
             (page_request CategoryElements token region group_id
                (row_category row) cursor_) s),
        Ret Break).
Proof.
  intros Hd. unfold colored_page, try_except, bind.
  destruct (execute_graphql _ _ _ _ _ _ s) as [s1 o] eqn:Hex.
  pose proof (execute_graphql_sent api CategoryElements token region
                (Some (PageVars group_id (rsql_filter_for (row_category row))
                         (pagination_for cursor_))) 30 s) as H1.
  pose proof (execute_graphql_not_fetched api CategoryElements token region
                (Some (PageVars group_id (rsql_filter_for (row_category row))
                         (pagination_for cursor_))) 30 s Hd) as H2.
  rewrite Hex in H1, H2. cbn in H1, H2. subst s1.
  destruct H2 as [[e ->]| ->]; cbn; eauto.
Qed.

End PageFacts.

(** ** The stop rule *)

Lemma stop_condition_code_stop returned previous page_results :
  stop_condition returned previous page_results = true <->
  code_stop returned previous page_results.
Proof.
  unfold stop_condition, code_stop.
  rewrite !orb_true_iff, negb_true_iff, !bool_decide_eq_true.
  destruct returned as [[|a r]|]; cbn; split; intros Hs.
  all: try (destruct Hs as [[?|?]|Hl]; first [done | auto]).
  all: try (right; right; right; by apply length_zero_iff_nil).
  all: try (destruct Hs as [?|[?|[?|Hl]]]; first [done | auto];
            right; by rewrite Hl).
Qed.

Lemma truthy_cursor_pagination (c : string) :
  c ≠ "" -> pagination_for (Some c) = PaginationInput (Some c) 100.
Proof. by destruct c. Qed.

Section StopRule.
Variable api : nat -> reply elements_data.
Variables token region group_id : string.

Lemma family_page_sent category cursor_ (s : store family_instance) :
  sent (family_page api token region group_id category cursor_ s).1 =
  sent s ++ [page_request FamilyInstances token region group_id category cursor_].
Proof.
  destruct (fetched (api (length (sent s)))) as [d|] eqn:Hd.
  - by rewrite (family_page_fetched _ _ _ _ _ _ _ _ Hd).
  - destruct (family_page_failed api token region group_id category cursor_ s Hd)
      as [e ->]. done.
Qed.

Lemma colored_page_sent row cursor_ (s : store highlight) :
  sent (colored_page api token region group_id row cursor_ s).1 =
  sent s ++ [page_request CategoryElements token region group_id
               (row_category row) cursor_].
Proof.
  destruct (fetched (api (length (sent s)))) as [d|] eqn:Hd.
  - rewrite (colored_page_fetched _ _ _ _ _ _ _ _ Hd). cbn.
    by destruct (collect _ _).2.
  - destruct (colored_page_failed api token region group_id row cursor_ s Hd)
      as [e ->]. done.
Qed.


End StopRule.

(** ** Termination of the pagination loops *)

Section WhileFacts.
Context {X : Type}.
Variable api : nat -> reply elements_data.
Variable body : option string -> M (store X) loop_ctl.

(** A pass breaks, raises, or goes on with the cursor the reply handed
    back, which then differs from the cursor it was started with. *)
Hypothesis body_cases : ∀ cursor_ s,
  (∃ s', body cursor_ s = (s', Ret Break)) ∨
  (∃ s' e, body cursor_ s = (s', Raise e)) ∨
  (∃ s', body cursor_ s = (s', Ret (Continue (new_cursor_at api (length (sent s))))) ∧
         new_cursor_at api (length (sent s)) ≠ cursor_ ∧
         length (sent s') = S (length (sent s))).

Lemma while_true_immediate_repeat fuel cursor_ s :
  new_cursor_at api (length (sent s)) = cursor_ ->
  (while_true (S fuel) body cursor_ s).2 ≠ OutOfFuel.
Proof.
  intros Hrep. cbn. unfold bind.
  destruct (body_cases cursor_ s) as [[s' ->]|[(s' & e & ->)|(s' & -> & Hne & _)]];
    cbn; congruence.
Qed.

Lemma while_true_repeat_terminates k : ∀ fuel cursor_ s,
  new_cursor_at api (length (sent s) + S k) = new_cursor_at api (length (sent s) + k) ->
  (k + 2 ≤ fuel)%nat ->
  (while_true fuel body cursor_ s).2 ≠ OutOfFuel.
Proof.
  induction k as [|k IH]; intros fuel cursor_ s Hrep Hfuel.
  - destruct fuel as [|[|fuel]]; [lia|lia|].
    cbn [while_true]. unfold bind at 1.
    destruct (body_cases cursor_ s) as [[s' ->]|[(s' & e & ->)|(s' & -> & Hne & Hlen)]];
      [cbn; congruence..|].
    apply while_true_immediate_repeat.
    rewrite Hlen. rewrite Nat.add_0_r in Hrep. rewrite <- Hrep.
    f_equal. lia.
  - destruct fuel as [|fuel]; [lia|].
    cbn [while_true]. unfold bind at 1.
    destruct (body_cases cursor_ s) as [[s' ->]|[(s' & e & ->)|(s' & -> & Hne & Hlen)]];
      [cbn; congruence..|].
    apply IH; [|lia]. rewrite Hlen.
    replace (S (length (sent s)) + S k)%nat with (length (sent s) + S (S k))%nat by lia.
    replace (S (length (sent s)) + k)%nat with (length (sent s) + S k)%nat by lia.
    done.
Qed.

End WhileFacts.

Section Termination.
Variable api : nat -> reply elements_data.
Variables token region group_id : string.

Lemma page_ctl_cases d cursor_ :
  page_ctl d cursor_ = Break ∨
  (page_ctl d cursor_ = Continue (new_cursor_of d) ∧ new_cursor_of d ≠ cursor_).
Proof.
  unfold page_ctl.
  destruct (stop_condition _ _ _) eqn:Hstop; [by left|right].
  split; [done|]. intros Heq.
  apply not_true_iff_false in Hstop. apply Hstop.
  apply stop_condition_code_stop. unfold code_stop. auto.
Qed.

Lemma family_page_cases category cursor_ (s : store family_instance) :
  (∃ s', family_page api token region group_id category cursor_ s = (s', Ret Break)) ∨
  (∃ s' e, family_page api token region group_id category cursor_ s = (s', Raise e)) ∨
  (∃ s', family_page api token region group_id category cursor_ s =
           (s', Ret (Continue (new_cursor_at api (length (sent s))))) ∧
         new_cursor_at api (length (sent s)) ≠ cursor_ ∧
         length (sent s') = S (length (sent s))).
Proof.
  pose proof (family_page_sent api token region group_id category cursor_ s) as Hsent.
  unfold new_cursor_at.
  destruct (fetched (api (length (sent s)))) as [d|] eqn:Hd.
  - rewrite (family_page_fetched _ _ _ _ _ _ _ _ Hd) in *. cbn in *.
    destruct (collect _ _).2; [|right; left; eauto].
    destruct (page_ctl_cases d cursor_) as [->|[-> Hne]]; [left; eauto|].
    right; right. eexists. split; [done|]. split; [done|].
    cbn. rewrite length_app. cbn. lia.
  - destruct (family_page_failed api token region group_id category cursor_ s Hd)
      as [e ->]. right; left; eauto.
Qed.

Lemma colored_page_cases row cursor_ (s : store highlight) :
  (∃ s', colored_page api token region group_id row cursor_ s = (s', Ret Break)) ∨
  (∃ s' e, colored_page api token region group_id row cursor_ s = (s', Raise e)) ∨
  (∃ s', colored_page api token region group_id row cursor_ s =
           (s', Ret (Continue (new_cursor_at api (length (sent s))))) ∧
         new_cursor_at api (length (sent s)) ≠ cursor_ ∧
         length (sent s') = S (length (sent s))).
Proof.
  pose proof (colored_page_sent api token region group_id row cursor_ s) as Hsent.
  unfold new_cursor_at.
  destruct (fetched (api (length (sent s)))) as [d|] eqn:Hd.
  - rewrite (colored_page_fetched _ _ _ _ _ _ _ _ Hd) in *. cbn in *.
    destruct (collect _ _).2; [|left; eauto].
    destruct (page_ctl_cases d cursor_) as [->|[-> Hne]]; [left; eauto|].
    right; right. eexists. split; [done|]. split; [done|].
    cbn. rewrite length_app. cbn. lia.
  - destruct (colored_page_failed api token region group_id row cursor_ s Hd)
      as [e ->]. left; eauto.
Qed.

(** C3 (as amended).  When some reply hands back the same cursor as the
    reply immediately before it ([k] passes after the loop starts), the
    family-instances loop and the colored-category loop both end within
    [k + 2] passes, whatever the other replies are. *)
Theorem immediate_repeat_terminates category row cursor_ k fuel
    (sf : store family_instance) (sc : store highlight) :
  new_cursor_at api (length (sent sf) + S k) = new_cursor_at api (length (sent sf) + k) ->
  new_cursor_at api (length (sent sc) + S k) = new_cursor_at api (length (sent sc) + k) ->
  (k + 2 ≤ fuel)%nat ->
  (family_loop api token region group_id fuel category cursor_ sf).2 ≠ OutOfFuel ∧
  (colored_loop api token region group_id fuel row cursor_ sc).2 ≠ OutOfFuel.
Proof.
  intros Hf Hc Hfuel. split.
  - apply (while_true_repeat_terminates api _ (family_page_cases category) k);
      assumption.
  - apply (while_true_repeat_terminates api _ (colored_page_cases row) k);
      assumption.
Qed.

End Termination.

(** ** Where the stop rule and the guard fall short of the specification *)



Section NeverStops.
Context {X : Type}.
Variable body : option string -> M (store X) loop_ctl.
Hypothesis body_goes_on : ∀ cursor_ s,
  cursor_ ≠ Some (letter (length (sent s))) ->
  ∃ s', body cursor_ s = (s', Ret (Continue (Some (letter (length (sent s)))))) ∧
        length (sent s') = S (length (sent s)).

Lemma letter_succ n : letter n ≠ letter (S n).
Proof.
  unfold letter. rewrite Nat.even_succ, <- Nat.negb_even.
  by destruct (Nat.even n).
Qed.

Lemma while_true_never_stops fuel : ∀ cursor_ s,
  cursor_ ≠ Some (letter (length (sent s))) ->
  (while_true fuel body cursor_ s).2 = OutOfFuel.
Proof.
  induction fuel as [|fuel IH]; intros cursor_ s Hne; [done|].
  cbn [while_true]. unfold bind at 1.
  destruct (body_goes_on cursor_ s Hne) as (s' & -> & Hlen).
  apply IH. rewrite Hlen. intros [= Heq]. by apply letter_succ in Heq.
Qed.

End NeverStops.

Lemma alternating_fetched n :
  fetched (alternating n) = Some (page_data (Val (letter n)) [beam]).
Proof. reflexivity. Qed.

Lemma alternating_page_ctl n cursor_ :
  cursor_ ≠ Some (letter n) ->
  page_ctl (page_data (Val (letter n)) [beam]) cursor_ = Continue (Some (letter n)).
Proof.
  intros Hne. unfold page_ctl.
  destruct (stop_condition _ _ _) eqn:Hstop; [|done].
  apply stop_condition_code_stop in Hstop.
  destruct Hstop as [H|[H|[H|H]]]; cbn in H; try done.
  unfold letter in H. by destruct (Nat.even n).
Qed.

(** C3 (as stated) fails: the replies of [alternating] repeat cursors,
    yet neither pagination loop ever ends on them, whatever the fuel. *)
Lemma alternating_cursors_never_stop :
  cursors_repeat alternating ∧
  ¬ terminates (fun fuel => family_loop alternating "t" "r" "g" fuel "Walls" None)
      empty_store ∧
  ¬ terminates (fun fuel => colored_loop alternating "t" "r" "g" fuel
                              (CategoryRow "Walls" "#00ff00") None)
      empty_store.
Proof.
  split; [|split].
  - exists 0%nat, 2%nat. split; [lia|]. split; [by eexists|reflexivity].
  - intros [fuel Hfuel]. apply Hfuel.
    apply while_true_never_stops; [|done].
    intros cursor_ s Hne.
    rewrite (family_page_fetched _ _ _ _ _ _ _ _ (alternating_fetched _)).
    cbn zeta. eexists. split.
    + f_equal. change (collect _ _).2 with true. cbn match.
      by rewrite alternating_page_ctl.
    + cbn. rewrite length_app. cbn. lia.
  - intros [fuel Hfuel]. apply Hfuel.
    apply while_true_never_stops; [|done].
    intros cursor_ s Hne.
    rewrite (colored_page_fetched _ _ _ _ _ _ _ _ (alternating_fetched _)).
    cbn zeta. change (collect _ _).2 with true. cbn match.
    eexists. split.
    + by rewrite alternating_page_ctl.
    + cbn. rewrite length_app. cbn. lia.
Qed.

(** ** What a run collects *)

Section Traces.
Context {K X : Type}.
Variable api : nat -> reply elements_data.
Variable elt : K -> element -> M (store X) unit.
Variable req : K -> option string -> request.
Variable body : K -> option string -> M (store X) loop_ctl.

Hypothesis body_sent : ∀ k cursor_ s,
  sent (body k cursor_ s).1 = sent s ++ [req k cursor_].
Hypothesis body_items : ∀ k cursor_ s,
  items (body k cursor_ s).1 = items s ++ page_items (elt k) (api (length (sent s))).

Lemma trace_items_app from (ks1 ks2 : list K) :
  trace_items elt api from (ks1 ++ ks2) =
  trace_items elt api from ks1 ++ trace_items elt api (from + length ks1) ks2.
Proof.
  revert from. induction ks1 as [|k ks1 IH]; intros from; cbn.
  - by rewrite Nat.add_0_r.
  - rewrite IH, <- app_assoc. do 3 f_equal. lia.
Qed.

Lemma all_complete_app from (ks1 ks2 : list K) :
  all_complete elt api from (ks1 ++ ks2) <->
  all_complete elt api from ks1 ∧ all_complete elt api (from + length ks1) ks2.
Proof.
  revert from. induction ks1 as [|k ks1 IH]; intros from; cbn.
  - rewrite Nat.add_0_r. tauto.
  - rewrite IH. replace (S from + length ks1)%nat with (from + S (length ks1))%nat by lia.
    tauto.
Qed.

Lemma elem_of_trace_items x from (ks : list K) :
  x ∈ trace_items elt api from ks ->
  ∃ i k, ks !! i = Some k ∧ x ∈ page_items (elt k) (api (from + i)%nat).
Proof.
  revert from. induction ks as [|k ks IH]; intros from; cbn.
  - by intros ?%elem_of_nil.
  - intros [Hx|Hx]%elem_of_app.
    + exists 0%nat, k. by rewrite Nat.add_0_r.
    + destruct (IH _ Hx) as (i & k' & Hi & Hin). exists (S i), k'.
      split; [done|]. by replace (from + S i)%nat with (S from + i)%nat by lia.
Qed.

Lemma run_of_nil s : run_of api elt req [] s s.
Proof. unfold run_of. cbn. by rewrite !app_nil_r. Qed.

Lemma run_of_one k cursor_ s : run_of api elt req [(k, cursor_)] s (body k cursor_ s).1.
Proof.
  unfold run_of. cbn. by rewrite body_sent, body_items, app_nil_r.
Qed.

Lemma run_of_app p1 p2 s1 s2 s3 :
  run_of api elt req p1 s1 s2 -> run_of api elt req p2 s2 s3 -> run_of api elt req (p1 ++ p2) s1 s3.
Proof.
  intros [Hs1 Hi1] [Hs2 Hi2]. unfold run_of.
  rewrite Hs2, Hi2, Hs1, Hi1, !fmap_app, trace_items_app, <- !app_assoc.
  rewrite length_app, !length_fmap. done.
Qed.

(** The passes of one loop: all made for the key [k]. *)
Lemma while_true_trace k fuel : ∀ cursor_ s,
  ∃ passes,
    Forall (fun p => p.1 = k) passes ∧
    run_of api elt req passes s (while_true fuel (body k) cursor_ s).1.
Proof.
  induction fuel as [|fuel IH]; intros cursor_ s.
  - exists []. split; [constructor|apply run_of_nil].
  - pose proof (run_of_one k cursor_ s) as H1.
    cbn [while_true]. unfold bind at 1.
    destruct (body k cursor_ s) as [s1 [[|c]|e|]]; cbn in H1.
    2: { destruct (IH c s1) as (passes & Hk & Hrun).
         exists ((k, cursor_) :: passes). split; [by constructor|].
         by apply (run_of_app [_] _ _ _ _ H1). }
    all: exists [(k, cursor_)]; split; [by repeat constructor|done].
Qed.

(** The passes of the loops of several keys, one loop after the other. *)
Lemma for_each_trace fuel (ks : list K) : ∀ s,
  ∃ passes,
    Forall (fun p => p.1 ∈ ks) passes ∧
    run_of api elt req passes s (for_each ks (fun k => while_true fuel (body k) None) s).1.
Proof.
  induction ks as [|k ks IH]; intros s.
  - exists []. split; [constructor|apply run_of_nil].
  - destruct (while_true_trace k fuel None s) as (p1 & Hp1 & Hrun1).
    cbn [for_each]. unfold bind at 1.
    destruct (while_true fuel (body k) None s) as [s1 [[]|e|]]; cbn in Hrun1.
    1: { destruct (IH s1) as (p2 & Hp2 & Hrun2).
         exists (p1 ++ p2). split; [|by eapply run_of_app].
         apply Forall_app. split.
         - eapply Forall_impl; [done|]. cbn. intros ? ->. by left.
         - eapply Forall_impl; [done|]. cbn. intros ? ?. by right. }
    all: exists p1; split; [|done];
      eapply Forall_impl; [done|]; cbn; intros ? ->; by left.
Qed.

(** When a pass can only end normally after a page went through. *)
Hypothesis body_ret : ∀ k cursor_ s s' ctl,
  body k cursor_ s = (s', Ret ctl) ->
  ∃ d, fetched (api (length (sent s))) = Some d ∧
       (collect (elt k) (page_results_of d)).2 = true.

Lemma while_true_trace_ret k fuel : ∀ cursor_ s s',
  while_true fuel (body k) cursor_ s = (s', Ret tt) ->
  ∃ passes,
    Forall (fun p => p.1 = k) passes ∧ run_of api elt req passes s s' ∧
    all_complete elt api (length (sent s)) passes.*1.
Proof.
  induction fuel as [|fuel IH]; intros cursor_ s s' Hrun; [done|].
  pose proof (run_of_one k cursor_ s) as H1.
  pose proof (body_sent k cursor_ s) as Hs.
  pose proof (body_ret k cursor_ s) as Hr.
  cbn [while_true] in Hrun. unfold bind at 1 in Hrun.
  destruct (body k cursor_ s) as [s1 [[|c]|e|]]; cbn in H1, Hs; try done.
  - injection Hrun as <-. exists [(k, cursor_)].
    split; [by repeat constructor|]. split; [done|]. split; [|done]. by eapply Hr.
  - destruct (IH c s1 s' Hrun) as (passes & Hk & Hrun' & Hc).
    exists ((k, cursor_) :: passes). split; [by constructor|].
    split; [by apply (run_of_app [_] _ _ _ _ H1)|].
    split; [by eapply Hr|].
    rewrite Hs, length_app, Nat.add_1_r in Hc. done.
Qed.

Lemma for_each_trace_ret fuel (ks : list K) : ∀ s s',
  for_each ks (fun k => while_true fuel (body k) None) s = (s', Ret tt) ->
  ∃ passes,
    Forall (fun p => p.1 ∈ ks) passes ∧ run_of api elt req passes s s' ∧
    all_complete elt api (length (sent s)) passes.*1.
Proof.
  induction ks as [|k ks IH]; intros s s' Hrun.
  - injection Hrun as <-. exists []. split; [constructor|].
    split; [apply run_of_nil|done].
  - cbn [for_each] in Hrun. unfold bind at 1 in Hrun.
    destruct (while_true fuel (body k) None s) as [s1 [[]|e|]] eqn:Hloop; try done.
    destruct (while_true_trace_ret k fuel None s s1 Hloop) as (p1 & Hp1 & Hrun1 & Hc1).
    destruct (IH s1 s' Hrun) as (p2 & Hp2 & Hrun2 & Hc2).
    exists (p1 ++ p2). split; [|split; [by eapply run_of_app|]].
    + apply Forall_app. split.
      * eapply Forall_impl; [done|]. cbn. intros ? ->. by left.
      * eapply Forall_impl; [done|]. cbn. intros ? ?. by right.
    + rewrite fmap_app. apply all_complete_app. split; [done|].
      destruct Hrun1 as [Hs1 _]. rewrite Hs1, length_app, !length_fmap in Hc2.
      by rewrite length_fmap.
Qed.

End Traces.

(** ** Aggregation *)

Lemma family_element_one category e xs :
  element_effect (family_element category) e = Some xs ->
  ∃ r, xs = [r] ∧ fi_category r = category.
Proof.
  unfold element_effect, family_element, bind, as_dict.
  destruct (properties e); cbn; intros [= <-]; eauto.
Qed.

Lemma family_collect_one category els :
  (collect (family_element category) els).2 = true ->
  Forall2 (fun e r => element_effect (family_element category) e = Some [r])
    els (collect (family_element category) els).1.
Proof.
  induction els as [|e els IH]; cbn; [constructor|].
  destruct (element_effect _ e) as [xs|] eqn:He; cbn; [|done].
  intros Hc. destruct (family_element_one _ _ _ He) as (r & -> & _).
  cbn. constructor; auto.
Qed.


Section Aggregation.
Variable api : nat -> reply elements_data.
Variables token region group_id : string.

Lemma family_page_items category cursor_ (s : store family_instance) :
  items (family_page api token region group_id category cursor_ s).1 =
  items s ++ page_items (family_element category) (api (length (sent s))).
Proof.
  unfold page_items.
  destruct (fetched (api (length (sent s)))) as [d|] eqn:Hd.
  - by rewrite (family_page_fetched _ _ _ _ _ _ _ _ Hd).
  - destruct (family_page_failed api token region group_id category cursor_ s Hd)
      as [e ->]. cbn. by rewrite app_nil_r.
Qed.

Lemma colored_page_items row cursor_ (s : store highlight) :
  items (colored_page api token region group_id row cursor_ s).1 =
  items s ++ page_items (colored_element (row_color_hex row))
               (api (length (sent s))).
Proof.
  unfold page_items.
  destruct (fetched (api (length (sent s)))) as [d|] eqn:Hd.
  - rewrite (colored_page_fetched _ _ _ _ _ _ _ _ Hd). cbn.
    by destruct (collect _ _).2.
  - destruct (colored_page_failed api token region group_id row cursor_ s Hd)
      as [e ->]. cbn. by rewrite app_nil_r.
Qed.

Lemma family_page_ret category cursor_ (s s' : store family_instance) ctl :
  family_page api token region group_id category cursor_ s = (s', Ret ctl) ->
  ∃ d, fetched (api (length (sent s))) = Some d ∧
       (collect (family_element category) (page_results_of d)).2 = true.
Proof.
  destruct (fetched (api (length (sent s)))) as [d|] eqn:Hd.
  - rewrite (family_page_fetched _ _ _ _ _ _ _ _ Hd). cbn.
    destruct (collect _ _).2 eqn:Hc; [eauto|done].
  - destruct (family_page_failed api token region group_id category cursor_ s Hd)
      as [e ->]. done.
Qed.

Lemma family_trace_elements from (keys : list string) :
  all_complete family_element api from keys ->
  Forall2 (fun ce r => element_effect (family_element ce.1) ce.2 = Some [r])
    (trace_elements api from keys)
    (trace_items family_element api from keys).
Proof.
  revert from. induction keys as [|k keys IH]; intros from; cbn; [constructor|].
  intros [(d & Hd & Hc) Hrest].
  apply Forall2_app; [|by apply IH].
  unfold page_elements, page_items. rewrite Hd.
  apply Forall2_fmap_l. by apply (family_collect_one k).
Qed.


End Aggregation.



Lemma immediate_repeat_terminates_witness :
  let api := fun _ : nat => page (Val "c1") [beam] in
  (family_loop api "t" "r" "g" 2 "Walls" None empty_store).2 ≠ OutOfFuel ∧
  (colored_loop api "t" "r" "g" 2 (CategoryRow "Walls" "#00ff00") None
     empty_store).2 ≠ OutOfFuel.
Proof.
  cbn zeta.
  apply (immediate_repeat_terminates (fun _ => page (Val "c1") [beam])
           "t" "r" "g" "Walls" (CategoryRow "Walls" "#00ff00") None 0%nat 2%nat
           empty_store empty_store).
  - reflexivity.
  - reflexivity.
  - lia.
Defined.

(** ** The colored view: entries and failures *)

Lemma external_id_of_nonempty e eid : external_id_of e = Some eid -> eid ≠ "".
Proof.
  unfold external_id_of.
  destruct (get_default _ _) as [a|]; [|done].
  destruct (get _) as [eid'|]; [|done].
  destruct eid'; cbn; [done|]. by intros [= <-].
Qed.

Lemma colored_effect_entry color_hex e xs x :
  element_effect (colored_element color_hex) e = Some xs -> x ∈ xs ->
  external_id_of e = Some x.1 ∧ x.2 = color_hex.
Proof.
  unfold element_effect, colored_element, external_id_of, bind, as_dict.
  destruct (get_default _ _) as [a|]; cbn; [|done].
  destruct (get _) as [eid|]; cbn.
  - destruct (truthy eid); cbn; intros [= <-].
    + by intros ->%list_elem_of_singleton.
    + by intros ?%elem_of_nil.
  - intros [= <-]. by intros ?%elem_of_nil.
Qed.

Lemma colored_collect_entry color_hex els x :
  x ∈ (collect (colored_element color_hex) els).1 ->
  ∃ e, e ∈ els ∧ external_id_of e = Some x.1 ∧ x.2 = color_hex.
Proof.
  induction els as [|e els IH]; cbn; [by intros ?%elem_of_nil|].
  destruct (element_effect _ e) as [xs|] eqn:He; cbn; [|by intros ?%elem_of_nil].
  intros [Hx|Hx]%elem_of_app.
  - exists e. split; [by left|]. by eapply colored_effect_entry.
  - destruct (IH Hx) as (e' & ? & ?). exists e'. split; [by right|done].
Qed.

Section NoRaise.
Context {S K : Type}.
Variable body : K -> option string -> M S loop_ctl.
Hypothesis body_no_raise : ∀ k cursor_ s e, (body k cursor_ s).2 ≠ Raise e.

Lemma while_true_no_raise k fuel : ∀ cursor_ s e,
  (while_true fuel (body k) cursor_ s).2 ≠ Raise e.
Proof.
  induction fuel as [|fuel IH]; intros cursor_ s e; [done|].
  pose proof (body_no_raise k cursor_ s) as Hb.
  cbn [while_true]. unfold bind at 1.
  destruct (body k cursor_ s) as [s1 [[|c]|e'|]]; cbn in *; try done.
  by destruct (Hb e').
Qed.

Lemma for_each_no_raise fuel (ks : list K) : ∀ s e,
  (for_each ks (fun k => while_true fuel (body k) None) s).2 ≠ Raise e.
Proof.
  induction ks as [|k ks IH]; intros s e; [done|].
  pose proof (while_true_no_raise k fuel None s) as Hb.
  cbn [for_each]. unfold bind at 1.
  destruct (while_true fuel (body k) None s) as [s1 [[]|e'|]]; cbn in *; try done.
  all: by destruct (Hb e').
Qed.

End NoRaise.

Section ColoredFacts.
Variable api : nat -> reply elements_data.
Variables token region group_id : string.

Lemma colored_page_no_raise row cursor_ (s : store highlight) e :
  (colored_page api token region group_id row cursor_ s).2 ≠ Raise e.
Proof.
  destruct (fetched (api (length (sent s)))) as [d|] eqn:Hd.
  - rewrite (colored_page_fetched _ _ _ _ _ _ _ _ Hd). cbn.
    by destruct (collect _ _).2.
  - destruct (colored_page_failed api token region group_id row cursor_ s Hd)
      as [e' ->]. done.
Qed.

(** C9.  The colored view never raises.  Every entry it adds to the
    highlight list pairs the non-empty external id of an element of a
    fetched page with the colour of the row whose request fetched that
    page.  When a request of a row's loop is not answered by a usable
    page, a warning naming the row's category is recorded, nothing is
    added or removed, the loop of that row ends after that request
    without raising, and the view goes on with the remaining rows. *)
Theorem colored_view_contains_failures fuel rows row rest cursor_
    (s : store highlight) :
  let run := view_colored_categories api token region group_id fuel rows s in
  let req := fun row c =>
    page_request CategoryElements token region group_id (row_category row) c in
  (∀ e, run.2 ≠ Raise e) ∧
  (∃ added, items run.1 = items s ++ added ∧
     ∀ x, x ∈ added ->
       ∃ row' i e c, row' ∈ rows ∧ sent run.1 !! i = Some (req row' c) ∧
                     e ∈ page_elements (api i) ∧
                     external_id_of e = Some x.1 ∧ x.1 ≠ "" ∧
                     x.2 = row_color_hex row') ∧
  (fetched (api (length (sent s))) = None ->
     (∃ e, colored_loop api token region group_id (S fuel) row cursor_ s =
             (log_warning (row_category row, e) (log_request (req row cursor_) s),
              Ret tt)) ∧
     (∃ e, view_colored_categories api token region group_id (S fuel) (row :: rest) s =
           view_colored_categories api token region group_id (S fuel) rest
             (log_warning (row_category row, e) (log_request (req row None) s)))).
Proof.
  intros run req. split; [|split].
  - intros e. subst run. unfold view_colored_categories, bind.
    pose proof (for_each_no_raise (colored_page api token region group_id)
                  colored_page_no_raise fuel rows s) as Hn.
    unfold colored_loop.
    destruct (for_each _ _ s) as [s1 [[]|e'|]]; cbn in *; try done.
    by destruct (Hn e').
  - destruct (for_each_trace api (fun row => colored_element (row_color_hex row))
                req (colored_page api token region group_id)
                (colored_page_sent api token region group_id)
                (colored_page_items api token region group_id) fuel rows s)
      as (passes & Hk & Hsent & Hitems).
    assert (Hrun : run.1 =
              (for_each rows (fun k => while_true fuel
                 (colored_page api token region group_id k) None) s).1).
    { subst run. unfold view_colored_categories, bind, colored_loop.
      by destruct (for_each _ _ s) as [s1 [[]|e|]]. }
    rewrite Hrun. eexists. split; [exact Hitems|].
    intros x Hx.
    apply elem_of_trace_items in Hx as (i & row' & Hi & Hx).
    apply list_lookup_fmap_Some in Hi as ([row'' c] & -> & Hp). cbn in *.
    unfold page_items in Hx.
    destruct (fetched (api (length (sent s) + i)%nat)) as [d|] eqn:Hd;
      [|by apply elem_of_nil in Hx].
    apply colored_collect_entry in Hx as (e & He & Hid & Hcol).
    exists row'', (length (sent s) + i)%nat, e, c.
    split; [by apply (Forall_lookup_1 _ _ _ _ Hk Hp)|].
    split.
    { rewrite Hsent, lookup_app_r by lia.
      replace (length (sent s) + i - length (sent s))%nat with i by lia.
      by rewrite list_lookup_fmap, Hp. }
    split; [unfold page_elements; by rewrite Hd|].
    split; [done|]. split; [by eapply external_id_of_nonempty|done].
  - intros Hfail. split.
    + destruct (colored_page_failed api token region group_id row cursor_ s Hfail)
        as [e He].
      exists e. unfold colored_loop. cbn [while_true]. unfold bind. by rewrite He.
    + destruct (colored_page_failed api token region group_id row None s Hfail)
        as [e He].
      exists e. unfold view_colored_categories, colored_loop.
      cbn [for_each while_true]. unfold bind. by rewrite He.
Qed.

End ColoredFacts.

Lemma colored_view_contains_failures_witness :
  let api := fun _ : nat => @Reply elements_data (HttpResponse 500 "unavailable" None) in
  let row := CategoryRow "Walls" "#00ff00" in
  ∃ e, colored_loop api "t" "r" "g" 1 row None empty_store =
       (log_warning ("Walls", e)
          (log_request (page_request CategoryElements "t" "r" "g" "Walls" None)
             empty_store),
        Ret tt).
Proof.
  cbn zeta.
  refine (proj1 (proj2 (proj2 (colored_view_contains_failures
            (fun _ => Reply (HttpResponse 500 "unavailable" None))
            "t" "r" "g" 0%nat [] (CategoryRow "Walls" "#00ff00") [] None
            empty_store)) _)).
  reflexivity.
Defined.

(** ** The category counts *)

Lemma add_value_name counts v :
  add_value counts v =
  match value_name v with
  | Some key => <[key := value_count v]> counts
  | None => counts
  end.
Proof.
  unfold add_value, value_name, value_count.
  destruct (get_default (dv_value v) "") as [key|]; [|done].
  by destruct (truthy key).
Qed.

Lemma model_category_counts_values results_list :
  model_category_counts results_list = foldl add_value ∅ (all_values results_list).
Proof.
  unfold model_category_counts, all_values. generalize (∅ : gmap string (option Z)).
  induction results_list as [|r rl IH]; intros m; [done|].
  cbn. rewrite IH. unfold add_result. by rewrite foldl_app.
Qed.

Lemma foldl_add_value_lookup_other (k : string) vs : ∀ counts : gmap string (option Z),
  Forall (fun w => value_name w ≠ Some k) vs ->
  foldl add_value counts vs !! k = counts !! k.
Proof.
  induction vs as [|v vs IH]; intros counts Hvs; [done|].
  apply Forall_cons in Hvs as [Hv Hvs]. cbn. rewrite IH by done.
  rewrite add_value_name. destruct (value_name v) as [key|]; [|done].
  rewrite lookup_insert_ne; [done|congruence].
Qed.

Lemma foldl_add_value_lookup (k : string) vs : ∀ counts : gmap string (option Z),
  foldl add_value counts vs !! k = counts !! k ∨
  ∃ v, v ∈ vs ∧ value_name v = Some k ∧
       foldl add_value counts vs !! k = Some (value_count v).
Proof.
  induction vs as [|v vs IH]; intros counts; [by left|].
  cbn. destruct (IH (add_value counts v)) as [Heq|(w & Hw & Hn & Hl)].
  - rewrite Heq, add_value_name.
    destruct (value_name v) as [key|] eqn:Hv; [|by left].
    destruct (decide (key = k)) as [->|Hne].
    + right. exists v. split; [by left|]. by rewrite lookup_insert_eq.
    + left. by rewrite lookup_insert_ne.
  - right. exists w. split; [by right|done].
Qed.

Lemma value_name_nonempty v k : value_name v = Some k -> k ≠ "".
Proof.
  unfold value_name. destruct (get_default _ _) as [key|]; [|done].
  destruct key; cbn; [done|]. by intros [= <-].
Qed.

(** C8.  An entry whose value is missing, null or the empty string
    leaves the mapping unchanged, and the empty string is never a key;
    for a name that occurs several times, the count of its last
    occurrence is the one the mapping holds. *)
Theorem counts_skip_empty_and_keep_last results_list :
  (∀ counts v,
     dv_value v = Absent ∨ dv_value v = Null ∨ dv_value v = Val "" ->
     add_value counts v = counts) ∧
  model_category_counts results_list !! "" = None ∧
  (∀ before v after k,
     all_values results_list = before ++ v :: after ->
     value_name v = Some k ->
     Forall (fun w => value_name w ≠ Some k) after ->
     model_category_counts results_list !! k = Some (value_count v)).
Proof.
  split; [|split].
  - intros counts v [Hv|[Hv|Hv]]; unfold add_value; by rewrite Hv.
  - rewrite model_category_counts_values.
    destruct (foldl_add_value_lookup "" (all_values results_list) ∅)
      as [->|(v & _ & Hn & _)]; [done|].
    by apply value_name_nonempty in Hn.
  - intros before v after k Hall Hv Hafter.
    rewrite model_category_counts_values, Hall, foldl_app. cbn.
    rewrite foldl_add_value_lookup_other by done.
    by rewrite add_value_name, Hv, lookup_insert_eq.
Qed.

Lemma counts_skip_empty_and_keep_last_witness :
  model_category_counts
    [DistinctResult (Val [DistinctValue (Val "Walls") (Val 3);
                          DistinctValue (Val "") (Val 8);
                          DistinctValue (Val "Walls") (Val 5);
                          DistinctValue (Val "Doors") (Val 2)])]
    !! "Walls" = Some (Some 5).
Proof.
  refine (proj2 (proj2 (counts_skip_empty_and_keep_last _))
            [DistinctValue (Val "Walls") (Val 3); DistinctValue (Val "") (Val 8)]
            (DistinctValue (Val "Walls") (Val 5))
            [DistinctValue (Val "Doors") (Val 2)] "Walls" _ _ _).
  - reflexivity.
  - reflexivity.
  - repeat constructor. discriminate.
Defined.

(** ** The reconciliation views read one response *)

Section Pure.
Context {S : Type}.

Lemma pure_ret {A} (a : A) : pure_M (S:=S) (ret a).
Proof. by exists (Ret a). Qed.

Lemma pure_raise {A} e : pure_M (S:=S) (A:=A) (raise e).
Proof. by exists (Raise e). Qed.

Lemma pure_bind {A B} (m : M S A) (k : A -> M S B) :
  pure_M m -> (∀ a, pure_M (k a)) -> pure_M (bind m k).
Proof.
  intros [o Hm] Hk. destruct o as [a|e|].
  - destruct (Hk a) as [o' Hk']. exists o'. intros s. unfold bind.
    by rewrite Hm, Hk'.
  - exists (Raise e). intros s. unfold bind. by rewrite Hm.
  - exists OutOfFuel. intros s. unfold bind. by rewrite Hm.
Qed.

Lemma pure_gt_zero v : pure_M (S:=S) (gt_zero v).
Proof. destruct v; [apply pure_ret|apply pure_raise]. Qed.

End Pure.

Section PureLoops.
Context {X : Type}.

Lemma pure_map_each {A B} (l : list A) (f : A -> M (store X) B) :
  (∀ x, pure_M (f x)) -> pure_M (map_each l f).
Proof.
  intros Hf. induction l as [|x l IH]; cbn; [apply pure_ret|].
  apply pure_bind; [done|]. intros y.
  apply pure_bind; [done|]. intros ys. apply pure_ret.
Qed.

Lemma pure_fold_each {A B} (l : list A) (f : B -> A -> M (store X) B) : ∀ acc,
  (∀ b x, pure_M (f b x)) -> pure_M (fold_each l f acc).
Proof.
  induction l as [|x l IH]; intros acc Hf; cbn; [apply pure_ret|].
  apply pure_bind; [done|]. intros b. by apply IH.
Qed.

Lemma pure_summary_row_for required counts category_name :
  pure_M (summary_row_for (X:=X) required counts category_name).
Proof.
  unfold summary_row_for. apply pure_bind; [apply pure_gt_zero|].
  intros b. apply pure_ret.
Qed.

Lemma pure_group_category required counts groups category_name :
  pure_M (group_category (X:=X) required counts groups category_name).
Proof.
  unfold group_category. apply pure_bind; [apply pure_gt_zero|].
  intros b. repeat case_match; apply pure_ret.
Qed.

Lemma pure_count_in_model counts cats :
  pure_M (count_in_model (X:=X) counts cats).
Proof.
  unfold count_in_model. apply pure_fold_each. intros n cat.
  apply pure_bind; [apply pure_gt_zero|]. intros b. apply pure_ret.
Qed.

(** What the two views do once the counts are there. *)
Lemma pure_summary_table rows counts :
  pure_M (map_each (X:=X) all_categories
            (summary_row_for (required_set rows) counts)).
Proof. apply pure_map_each, pure_summary_row_for. Qed.

End PureLoops.

Section OneQuery.
Context {X : Type}.
Variable api : nat -> reply categories_data.
Variables token region group_id : string.

Lemma fetch_counts_fetched (s : store X) d :
  fetched (api (length (sent s))) = Some d ->
  fetch_counts api token region group_id s =
  (log_request (counts_request token region group_id) s,
   Ret (model_category_counts (results_list_of d))).
Proof.
  intros Hd. unfold fetch_counts, try_except, bind.
  destruct (execute_graphql _ _ _ _ _ _ s) as [s1 o] eqn:Hex.
  pose proof (execute_graphql_sent api UsedCategories token region
                (Some (CountVars group_id 1000)) 30 s) as H1.
  pose proof (execute_graphql_fetched api UsedCategories token region
                (Some (CountVars group_id 1000)) 30 s d Hd) as H2.
  rewrite Hex in H1, H2. cbn in H1, H2. by subst s1 o.
Qed.

Lemma fetch_counts_failed (s : store X) :
  fetched (api (length (sent s))) = None ->
  ∃ e, fetch_counts api token region group_id s =
       (log_request (counts_request token region group_id) s, Raise (UserError e)).
Proof.
  intros Hd. unfold fetch_counts, try_except, bind.
  destruct (execute_graphql _ _ _ _ _ _ s) as [s1 o] eqn:Hex.
  pose proof (execute_graphql_sent api UsedCategories token region
                (Some (CountVars group_id 1000)) 30 s) as H1.
  pose proof (execute_graphql_not_fetched api UsedCategories token region
                (Some (CountVars group_id 1000)) 30 s Hd) as H2.
  rewrite Hex in H1, H2. cbn in H1, H2. subst s1.
  destruct H2 as [[e ->]| ->]; cbn; eauto.
Qed.

Lemma fetch_counts_sent (s : store X) :
  (fetch_counts api token region group_id s).1 =
  log_request (counts_request token region group_id) s.
Proof.
  destruct (fetched (api (length (sent s)))) as [d|] eqn:Hd.
  - by rewrite (fetch_counts_fetched _ _ Hd).
  - by destruct (fetch_counts_failed s Hd) as [e ->].
Qed.

End OneQuery.

Lemma bind_pure_fst {S A B} (m : M S A) (rest : A -> M S B) s :
  (∀ a, pure_M (rest a)) -> (bind m rest s).1 = (m s).1.
Proof.
  intros Hrest. unfold bind. destruct (m s) as [s1 [a|e|]]; [|done..].
  destruct (Hrest a) as [o Ho]. by rewrite Ho.
Qed.

Lemma bind_pure_snd {S A B} (m m' : M S A) (rest : A -> M S B) s s' a :
  (∀ a, pure_M (rest a)) -> (m s).2 = Ret a -> (m' s').2 = Ret a ->
  (bind m rest s).2 = (bind m' rest s').2.
Proof.
  intros Hrest. unfold bind.
  destruct (m s) as [s1 o1], (m' s') as [s1' o1']. cbn. intros -> ->.
  destruct (Hrest a) as [o Ho]. by rewrite !Ho.
Qed.

Lemma view_category_summary_rest {X} rows :
  ∃ rest : gmap string (option Z) -> M (store X) (list summary_row),
    (∀ counts, pure_M (rest counts)) ∧
    ∀ api token region group_id,
      view_category_summary api token region group_id rows =
      bind (fetch_counts api token region group_id) rest.
Proof.
  eexists. split; [|reflexivity].
  intros counts. apply pure_summary_table.
Qed.

Lemma view_category_data_rest {X} rows :
  ∃ rest : gmap string (option Z) -> M (store X) data_result,
    (∀ counts, pure_M (rest counts)) ∧
    ∀ api token region group_id,
      view_category_data api token region group_id rows =
      bind (fetch_counts api token region group_id) rest.
Proof.
  eexists. split; [|reflexivity].
  intros counts. cbn beta.
  apply pure_bind; [apply pure_count_in_model|]. intros in_model.
  apply pure_bind; [apply pure_count_in_model|]. intros matched.
  apply pure_bind; [|intros groups; apply pure_ret].
  apply pure_fold_each. intros groups cat. apply pure_group_category.
Qed.

Lemma counts_lookup_reported results_list k c :
  model_category_counts results_list !! k = Some c ->
  ∃ w, w ∈ all_values results_list ∧ value_name w = Some k ∧ c = value_count w.
Proof.
  rewrite model_category_counts_values.
  destruct (foldl_add_value_lookup k (all_values results_list) ∅)
    as [->|(w & Hw & Hn & ->)]; [done|].
  intros [= <-]. eauto.
Qed.

Lemma counts_lookup_named results_list v k :
  v ∈ all_values results_list -> value_name v = Some k ->
  ∃ w, w ∈ all_values results_list ∧ value_name w = Some k ∧
       model_category_counts results_list !! k = Some (value_count w).
Proof.
  intros Hv Hk. rewrite model_category_counts_values.
  destruct (foldl_add_value_lookup k (all_values results_list) ∅)
    as [Heq|(w & Hw & Hn & ->)]; [|eauto].
  exfalso. rewrite lookup_empty in Heq.
  apply list_elem_of_split in Hv as (l1 & l2 & Hsplit).
  rewrite Hsplit, foldl_app in Heq. cbn in Heq.
  destruct (foldl_add_value_lookup k l2 (add_value (foldl add_value ∅ l1) v))
    as [Heq'|(w & _ & _ & Hl)].
  - rewrite Heq', add_value_name, Hk, lookup_insert_eq in Heq. done.
  - by rewrite Hl in Heq.
Qed.

Section OneQueryViews.
Context {X : Type}.
Variable api : nat -> reply categories_data.
Variables token region group_id : string.

(** C7.  A reconciliation view sends exactly one request, the aggregate
    query.  When it is answered, the mapping built from the response
    sends every name that occurs with a non-empty value to a count the
    response reports for that name, and holds nothing else.  What the
    view returns depends on the response through that mapping only: two
    invocations that build the same mapping return the same result. *)
Theorem counts_come_from_one_query rows (s : store X) :
  let r := counts_request token region group_id in
  ((view_category_summary api token region group_id rows s).1 = log_request r s ∧
   (view_category_data api token region group_id rows s).1 = log_request r s) ∧
  (∀ d, fetched (api (length (sent s))) = Some d ->
     let counts := model_category_counts (results_list_of d) in
     (fetch_counts api token region group_id s).2 = Ret counts ∧
     (∀ v k, v ∈ all_values (results_list_of d) -> value_name v = Some k ->
        ∃ w, w ∈ all_values (results_list_of d) ∧ value_name w = Some k ∧
             counts !! k = Some (value_count w)) ∧
     (∀ k c, counts !! k = Some c ->
        ∃ w, w ∈ all_values (results_list_of d) ∧ value_name w = Some k ∧
             c = value_count w)) ∧
  (∀ api' token' region' group_id' (s' : store X) counts,
     (fetch_counts api token region group_id s).2 = Ret counts ->
     (fetch_counts api' token' region' group_id' s').2 = Ret counts ->
     (view_category_summary api token region group_id rows s).2 =
       (view_category_summary api' token' region' group_id' rows s').2 ∧
     (view_category_data api token region group_id rows s).2 =
       (view_category_data api' token' region' group_id' rows s').2).
Proof.
  intros r.
  destruct (view_category_summary_rest (X:=X) rows) as (rest1 & Hp1 & Hv1).
  destruct (view_category_data_rest (X:=X) rows) as (rest2 & Hp2 & Hv2).
  split; [|split].
  - rewrite Hv1, Hv2, !bind_pure_fst by done.
    split; apply fetch_counts_sent.
  - intros d Hd counts. split; [by rewrite (fetch_counts_fetched _ _ _ _ _ _ Hd)|].
    split.
    + intros v k. apply counts_lookup_named.
    + intros k c. apply counts_lookup_reported.
  - intros api' token' region' group_id' s' counts Hf Hf'.
    rewrite !Hv1, !Hv2. split; by eapply bind_pure_snd.
Qed.

End OneQueryViews.

(** ** Reconciliation *)

Lemma elem_of_required_set rows category_name :
  category_name ∈ required_set rows <-> category_name ∈ row_category <$> rows.
Proof. unfold required_set. by rewrite elem_of_list_to_set. Qed.

Lemma bool_decide_required_set rows category_name :
  bool_decide (category_name ∈ required_set rows) = in_contract rows category_name.
Proof. apply bool_decide_ext, elem_of_required_set. Qed.

Lemma count_of_number counts category_name :
  counts_are_numbers counts -> ∃ n, count_of counts category_name = Some n.
Proof.
  intros Hn. unfold count_of. specialize (Hn category_name).
  destruct (counts !! category_name) as [[n|]|]; cbn; eauto. done.
Qed.

Section ReconciliationFacts.
Context {X : Type}.


Lemma group_category_classifies rows counts groups category_name n (s : store X) :
  count_of counts category_name = Some n ->
  ∃ item groups',
    group_category (required_set rows) counts groups category_name s =
      (s, Ret groups') ∧
    di_label item = category_name ∧
    ∀ c, group_of c groups' =
         group_of c groups ++
         (if decide (c = class_of rows counts category_name) then [item] else []).
Proof.
  intros Hc. unfold group_category, bind, class_of. rewrite Hc. cbn.
  rewrite bool_decide_required_set.
  destruct (in_contract rows category_name), (bool_decide (0 < n)); cbn.
  all: eexists (DataItem category_name _ _ _), _.
  all: split; [reflexivity|]; split; [reflexivity|].
  all: intros []; cbn; rewrite ?app_nil_r; reflexivity.
Qed.


Lemma fold_each_groups rows counts l (s : store X) : ∀ groups,
  counts_are_numbers counts ->
  ∃ groups',
    fold_each l (group_category (required_set rows) counts) groups s =
      (s, Ret groups') ∧
    ∀ c, di_label <$> group_of c groups' =
         (di_label <$> group_of c groups) ++
         filter (fun cat => c = class_of rows counts cat) l.
Proof.
  intros groups Hn. revert groups.
  induction l as [|cat l IH]; intros groups; cbn.
  - exists groups. split; [done|]. intros c. by rewrite app_nil_r.
  - destruct (count_of_number counts cat Hn) as [n Hc].
    destruct (group_category_classifies rows counts groups cat n s Hc)
      as (item & g1 & Hg1 & Hlabel & Hgroups).
    destruct (IH g1) as (g2 & Hg2 & Hlabels).
    exists g2. unfold bind. rewrite Hg1. split; [done|].
    intros c. rewrite Hlabels, Hgroups, fmap_app, <- app_assoc. f_equal.
    destruct (decide (c = _)); cbn; by rewrite ?Hlabel.
Qed.


End ReconciliationFacts.

Lemma elem_of_titled_if_nonempty title items t group :
  (title, items) ∈ titled_if_nonempty t group <->
  title = t ∧ items = group ∧ group ≠ [].
Proof.
  unfold titled_if_nonempty. case_bool_decide as Hlen.
  - rewrite list_elem_of_singleton. split.
    + intros [= -> ->]. repeat split. intros ->. cbn in Hlen. lia.
    + by intros (-> & -> & _).
  - split; [by intros ?%elem_of_nil|]. intros (_ & _ & Hne).
    destruct group; [done|]. cbn in Hlen. lia.
Qed.

Lemma elem_of_rendered_groups title items groups :
  (title, items) ∈
    titled_if_nonempty "✓ Present (Contract & Model)" (present_group groups) ++
    titled_if_nonempty "✗ Missing from Model" (missing_from_model_group groups) ++
    titled_if_nonempty "⚠ Missing from Contract" (missing_from_contract_group groups) ++
    titled_if_nonempty "○ Not Applicable" (not_applicable_group groups) <->
  ∃ c, title = group_title c ∧ items = group_of c groups ∧ group_of c groups ≠ [].
Proof.
  rewrite !elem_of_app, !elem_of_titled_if_nonempty. split.
  - intros [H|[H|[H|H]]];
      [exists PresentInContractAndModel|exists InContractMissingFromModel|
       exists InModelMissingFromContract|exists NeitherInContractNorModel]; done.
  - intros ([] & H); cbn in H; tauto.
Qed.

Lemma group_title_inj c1 c2 : group_title c1 = group_title c2 -> c1 = c2.
Proof. destruct c1, c2; cbn; intros H; first [done | discriminate H]. Qed.

Section Classification.
Context {X : Type}.
Variable api : nat -> reply categories_data.
Variables token region group_id : string.


(** C6.  The reconciliation reads the rows only through the set of their
    category names: rows with the same set of names, in particular a
    permutation of the rows or the rows with one of them repeated, give
    the same result in both views. *)
Theorem reconciliation_depends_on_declared_set rows :
  (∀ rows',
     (∀ c, c ∈ row_category <$> rows <-> c ∈ row_category <$> rows') ->
     view_category_summary (X:=X) api token region group_id rows =
       view_category_summary api token region group_id rows' ∧
     view_category_data (X:=X) api token region group_id rows =
       view_category_data api token region group_id rows') ∧
  (∀ rows', rows ≡ₚ rows' ->
     view_category_summary (X:=X) api token region group_id rows =
       view_category_summary api token region group_id rows' ∧
     view_category_data (X:=X) api token region group_id rows =
       view_category_data api token region group_id rows') ∧
  (∀ before row after, rows = before ++ row :: after ->
     view_category_summary (X:=X) api token region group_id rows =
       view_category_summary api token region group_id
         (before ++ row :: row :: after) ∧
     view_category_data (X:=X) api token region group_id rows =
       view_category_data api token region group_id
         (before ++ row :: row :: after)).
Proof.
  assert (Hset : ∀ rows',
    (∀ c, c ∈ row_category <$> rows <-> c ∈ row_category <$> rows') ->
    view_category_summary (X:=X) api token region group_id rows =
      view_category_summary api token region group_id rows' ∧
    view_category_data (X:=X) api token region group_id rows =
      view_category_data api token region group_id rows').
  { intros rows' Hsame.
    assert (required_set rows = required_set rows') as Heq.
    { apply set_eq. intros c. by rewrite !elem_of_required_set. }
    unfold view_category_summary, view_category_data. by rewrite Heq. }
  split; [done|]. split.
  - intros rows' Hperm. apply Hset. intros c. by rewrite Hperm.
  - intros before row after ->. apply Hset. intros c.
    rewrite !fmap_app, !fmap_cons, !elem_of_app, !elem_of_cons. tauto.
Qed.

End Classification.

Lemma counts_are_numbers_reported results_list :
  Forall (fun v => value_count v ≠ None) (all_values results_list) ->
  counts_are_numbers (model_category_counts results_list).
Proof.
  intros Hall k Hk.
  apply counts_lookup_reported in Hk as (w & Hw & _ & Hc).
  rewrite Forall_forall in Hall. by apply (Hall w Hw).
Qed.

Lemma sample_counts_are_numbers :
  counts_are_numbers (model_category_counts (results_list_of sample_counts)).
Proof. apply counts_are_numbers_reported. repeat constructor; discriminate. Qed.


Lemma reconciliation_depends_on_declared_set_witness :
  view_category_summary (X:=unit) counts_api "t" "r" "g"
    [CategoryRow "Walls" "#00ff00"; CategoryRow "Doors" "#ff0000"] =
  view_category_summary counts_api "t" "r" "g"
    [CategoryRow "Doors" "#ff0000"; CategoryRow "Walls" "#00ff00"].
Proof.
  exact (proj1 (proj1 (proj2 (reconciliation_depends_on_declared_set
           counts_api "t" "r" "g"
           [CategoryRow "Walls" "#00ff00"; CategoryRow "Doors" "#ff0000"]))
           [CategoryRow "Doors" "#ff0000"; CategoryRow "Walls" "#00ff00"]
           (perm_swap _ _ []))).
Defined.

Lemma counts_come_from_one_query_witness :
  (fetch_counts (X:=unit) counts_api "t" "r" "g" empty_store).2 =
  Ret (model_category_counts (results_list_of sample_counts)).
Proof.
  exact (proj1 (proj1 (proj2 (counts_come_from_one_query counts_api "t" "r" "g"
           sample_rows empty_store)) sample_counts eq_refl)).
Defined.

(** ** Names in the family-instances table *)

Lemma scan_property_names props : ∀ names,
  foldl scan_property names props =
  (match last (filter (fun p => get_default (prop_name p) "" = Some "Family Name") props) with
   | Some p => or_else (get_default (prop_value p) "") "Unknown"
   | None => names.1
   end,
   match last (filter (fun p => get_default (prop_name p) "" = Some "Type Name") props) with
   | Some p => or_else (get_default (prop_value p) "") "Unknown"
   | None => names.2
   end).
Proof.
  induction props as [|p props IH] using rev_ind; intros names.
  - by destruct names.
  - rewrite foldl_app, IH, !filter_app. cbn [foldl]. unfold scan_property at 1.
    rewrite !filter_cons, !filter_nil.
    repeat case_bool_decide; repeat case_decide; try congruence;
      rewrite ?app_nil_r, ?last_snoc; cbn; try done.
Qed.

(** X17.  The family name and the type name of a record come from the
    properties called "Family Name" and "Type Name", and are "Unknown"
    when there is none or its value is missing, null or empty; the
    element name is "Unknown" only when the key "name" is missing. *)
Lemma family_element_names category e props_block :
  get_default (properties e) ∅ = Some props_block ->
  element_effect (family_element category) e =
  Some [FamilyInstance category
          (name_from "Family Name" (or_else (get_default (prop_results props_block) []) []))
          (name_from "Type Name" (or_else (get_default (prop_results props_block) []) []))
          (get_default (name e) "Unknown")].
Proof.
  intros Hp. unfold element_effect, family_element, bind, as_dict. rewrite Hp.
  cbn. by rewrite scan_property_names.
Qed.

(** C10 (where the code departs from it).  For the element [unnamed],
    whose name and property values are all the empty string, the record
    has "Unknown" as family name and as type name, but keeps the empty
    string as element name. *)
Lemma empty_element_name_is_kept :
  element_effect (family_element "Walls") unnamed =
  Some [FamilyInstance "Walls" "Unknown" "Unknown" (Some "")].
Proof. reflexivity. Qed.


(** ** The pagination protocol *)

Section Protocol.
Context {X : Type}.
Variable api : nat -> reply elements_data.
Variable req : option string -> request.
Variable body : option string -> M (store X) loop_ctl.

(** A pass sends one request; it breaks, raises, or goes on with the
    cursor of the page it fetched, and then the stop rule did not hold. *)
Hypothesis body_step : ∀ cursor_ s,
  sent (body cursor_ s).1 = sent s ++ [req cursor_] ∧
  ((body cursor_ s).2 = Ret Break ∨
   (∃ e, (body cursor_ s).2 = Raise e) ∨
   (∃ d, (body cursor_ s).2 = Ret (Continue (new_cursor_of d)) ∧
         fetched (api (length (sent s))) = Some d ∧
         ¬ code_stop (new_cursor_of d) cursor_ (page_results_of d))).

Lemma while_true_chained fuel : ∀ c0 s,
  ∃ cursors,
    sent (while_true fuel body c0 s).1 = sent s ++ (req <$> cursors) ∧
    (fuel ≠ 0%nat -> head cursors = Some c0) ∧
    (length cursors ≤ fuel)%nat ∧
    chained api (length (sent s)) cursors ∧
    Forall (fun c => c = c0 ∨ truthy c = true) cursors.
Proof.
  induction fuel as [|fuel IH]; intros c0 s.
  - exists []. cbn. rewrite app_nil_r. repeat split; done.
  - destruct (body_step c0 s) as [Hsent Hcases].
    cbn [while_true]. unfold bind at 1.
    destruct (body c0 s) as [s1 o] eqn:Hb. cbn in Hsent, Hcases.
    destruct Hcases as [->|[[e ->]|(d & -> & Hd & Hstop)]].
    1,2: exists [c0]; cbn; repeat split; try done; try lia;
         repeat constructor.
    destruct (IH (new_cursor_of d) s1) as (cursors & Hs & Hhead & Hlen & Hch & Hall).
    exists (c0 :: cursors). rewrite Hs, Hsent, <- app_assoc. cbn.
    split; [done|]. split; [done|]. split; [lia|]. split.
    + split.
      * destruct cursors as [|c2 rest]; [done|].
        assert (c2 = new_cursor_of d) as ->.
        { destruct fuel; [cbn in Hlen; lia|]. by injection (Hhead ltac:(done)). }
        unfold new_cursor_at. rewrite Hd. cbn.
        unfold code_stop in Hstop.
        split; [done|]. split; [intros Heq; apply Hstop; auto|].
        destruct (new_cursor_of d) as [[|a c]|]; [|done|];
          exfalso; apply Hstop; auto.
      * rewrite Hsent, length_app, Nat.add_1_r in Hch. done.
    + constructor; [by left|].
      eapply Forall_impl; [done|]. cbn. intros c [->|?]; [|by right].
      right. unfold code_stop in Hstop.
      destruct (new_cursor_of d) as [[|a c']|]; [|done|];
        exfalso; apply Hstop; auto.
Qed.

Lemma while_true_exhausted k : ∀ fuel c0 s,
  exhausted api (length (sent s) + k) ->
  (k + 1 ≤ fuel)%nat ->
  (while_true fuel body c0 s).2 ≠ OutOfFuel.
Proof.
  induction k as [|k IH]; intros fuel c0 s Hex Hfuel.
  all: destruct fuel as [|fuel]; [lia|].
  all: destruct (body_step c0 s) as [Hsent Hcases].
  all: cbn [while_true]; unfold bind at 1.
  all: destruct (body c0 s) as [s1 o] eqn:Hb; cbn in Hsent, Hcases.
  all: destruct Hcases as [->|[[e ->]|(d & -> & Hd & Hstop)]]; [done..|].
  - exfalso. apply Hstop. rewrite Nat.add_0_r in Hex.
    unfold code_stop. destruct (Hex d Hd) as [?|[?|?]]; auto.
  - apply IH; [|lia]. rewrite Hsent, length_app, Nat.add_1_r.
    by replace (S (length (sent s)) + k)%nat with (length (sent s) + S k)%nat by lia.
Qed.

End Protocol.

Section ProtocolOfTheLoops.
Variable api : nat -> reply elements_data.
Variables token region group_id : string.

Lemma page_ctl_step d cursor_ :
  page_ctl d cursor_ = Break ∨
  (page_ctl d cursor_ = Continue (new_cursor_of d) ∧
   ¬ code_stop (new_cursor_of d) cursor_ (page_results_of d)).
Proof.
  unfold page_ctl. destruct (stop_condition _ _ _) eqn:Hstop; [by left|right].
  split; [done|]. rewrite <- stop_condition_code_stop. congruence.
Qed.

Lemma family_page_step category cursor_ (s : store family_instance) :
  sent (family_page api token region group_id category cursor_ s).1 =
    sent s ++ [page_request FamilyInstances token region group_id category cursor_] ∧
  ((family_page api token region group_id category cursor_ s).2 = Ret Break ∨
   (∃ e, (family_page api token region group_id category cursor_ s).2 = Raise e) ∨
   (∃ d, (family_page api token region group_id category cursor_ s).2 =
           Ret (Continue (new_cursor_of d)) ∧
         fetched (api (length (sent s))) = Some d ∧
         ¬ code_stop (new_cursor_of d) cursor_ (page_results_of d))).
Proof.
  split; [apply family_page_sent|].
  destruct (fetched (api (length (sent s)))) as [d|] eqn:Hd.
  - rewrite (family_page_fetched _ _ _ _ _ _ _ _ Hd). cbn.
    destruct (collect _ _).2; [|right; left; eauto].
    destruct (page_ctl_step d cursor_) as [->|[-> Hstop]]; [by left|].
    right; right. eauto.
  - destruct (family_page_failed api token region group_id category cursor_ s Hd)
      as [e ->]. right; left; eauto.
Qed.

Lemma colored_page_step row cursor_ (s : store highlight) :
  sent (colored_page api token region group_id row cursor_ s).1 =
    sent s ++ [page_request CategoryElements token region group_id
                 (row_category row) cursor_] ∧
  ((colored_page api token region group_id row cursor_ s).2 = Ret Break ∨
   (∃ e, (colored_page api token region group_id row cursor_ s).2 = Raise e) ∨
   (∃ d, (colored_page api token region group_id row cursor_ s).2 =
           Ret (Continue (new_cursor_of d)) ∧
         fetched (api (length (sent s))) = Some d ∧
         ¬ code_stop (new_cursor_of d) cursor_ (page_results_of d))).
Proof.
  split; [apply colored_page_sent|].
  destruct (fetched (api (length (sent s)))) as [d|] eqn:Hd.
  - rewrite (colored_page_fetched _ _ _ _ _ _ _ _ Hd). cbn.
    destruct (collect _ _).2; [|by left].
    destruct (page_ctl_step d cursor_) as [->|[-> Hstop]]; [by left|].
    right; right. eauto.
  - destruct (colored_page_failed api token region group_id row cursor_ s Hd)
      as [e ->]. by left.
Qed.

Lemma pagination_for_limit c :
  c = None ∨ truthy c = true -> pagination_for c = PaginationInput c limit.
Proof.
  intros [->|Hc]; [done|]. unfold pagination_for. by rewrite Hc.
Qed.

(** X1.  The requests of one pagination loop, started without a cursor:
    the first carries no cursor, every later one carries the cursor that
    the reply to the request before it handed back (never an empty one,
    never the cursor just sent), and all ask for 100 results. *)
Theorem loop_requests_chain_cursors fuel category row
    (sf : store family_instance) (sc : store highlight) :
  (∃ cursors,
     sent (family_loop api token region group_id fuel category None sf).1 =
       sent sf ++
       (page_request FamilyInstances token region group_id category <$> cursors) ∧
     (fuel ≠ 0%nat -> head cursors = Some None) ∧
     chained api (length (sent sf)) cursors ∧
     Forall (fun c => pagination_for c = PaginationInput c 100) cursors) ∧
  (∃ cursors,
     sent (colored_loop api token region group_id fuel row None sc).1 =
       sent sc ++
       (page_request CategoryElements token region group_id (row_category row)
          <$> cursors) ∧
     (fuel ≠ 0%nat -> head cursors = Some None) ∧
     chained api (length (sent sc)) cursors ∧
     Forall (fun c => pagination_for c = PaginationInput c 100) cursors).
Proof.
  split.
  - destruct (while_true_chained api _ _ (family_page_step category) fuel None sf)
      as (cursors & Hs & Hh & _ & Hc & Hall).
    exists cursors. repeat split; try done.
    eapply Forall_impl; [done|]. apply pagination_for_limit.
  - destruct (while_true_chained api _ _ (colored_page_step row) fuel None sc)
      as (cursors & Hs & Hh & _ & Hc & Hall).
    exists cursors. repeat split; try done.
    eapply Forall_impl; [done|]. apply pagination_for_limit.
Qed.

(** X2.  A reply that is no usable page, or a page without a cursor or
    without results, ends the loop that receives it: when the reply [k]
    passes after the start is such a reply, both loops are over within
    [k + 1] passes. *)
Theorem exhausted_reply_ends_loop category row cursor_ k fuel
    (sf : store family_instance) (sc : store highlight) :
  exhausted api (length (sent sf) + k) ->
  exhausted api (length (sent sc) + k) ->
  (k + 1 ≤ fuel)%nat ->
  (family_loop api token region group_id fuel category cursor_ sf).2 ≠ OutOfFuel ∧
  (colored_loop api token region group_id fuel row cursor_ sc).2 ≠ OutOfFuel.
Proof.
  intros Hf Hc Hfuel. split.
  - by apply (while_true_exhausted api _ _ (family_page_step category) k).
  - by apply (while_true_exhausted api _ _ (colored_page_step row) k).
Qed.

End ProtocolOfTheLoops.

Lemma exhausted_reply_ends_loop_witness :
  let api := fun _ : nat => page Absent [beam] in
  (family_loop api "t" "r" "g" 1 "Walls" None empty_store).2 ≠ OutOfFuel ∧
  (colored_loop api "t" "r" "g" 1 (CategoryRow "Walls" "#00ff00") None
     empty_store).2 ≠ OutOfFuel.
Proof.
  cbn zeta.
  apply (exhausted_reply_ends_loop (fun _ => page Absent [beam])
           "t" "r" "g" "Walls" (CategoryRow "Walls" "#00ff00") None 0%nat 1%nat
           empty_store empty_store).
  - intros d [= <-]. by left.
  - intros d [= <-]. by left.
  - lia.
Defined.

(** ** Runs that raise, and what runs preserve *)

Section RunFacts.
Context {K X : Type}.
Variable body : K -> option string -> M (store X) loop_ctl.

Section Preserved.
Variable I : store X -> Prop.
Hypothesis body_keeps : ∀ k cursor_ s, I s -> I (body k cursor_ s).1.

Lemma while_true_keeps k fuel : ∀ cursor_ s,
  I s -> I (while_true fuel (body k) cursor_ s).1.
Proof.
  induction fuel as [|fuel IH]; intros cursor_ s Hs; [done|].
  pose proof (body_keeps k cursor_ s Hs) as H1.
  cbn [while_true]. unfold bind at 1.
  destruct (body k cursor_ s) as [s1 [[|c]|e|]]; cbn in H1; try done.
  by apply IH.
Qed.

Lemma for_each_keeps fuel (ks : list K) : ∀ s,
  I s -> I (for_each ks (fun k => while_true fuel (body k) None) s).1.
Proof.
  induction ks as [|k ks IH]; intros s Hs; [done|].
  pose proof (while_true_keeps k fuel None s Hs) as H1.
  cbn [for_each]. unfold bind at 1.
  destruct (while_true fuel (body k) None s) as [s1 [[]|e|]]; cbn in H1; try done.
  by apply IH.
Qed.

End Preserved.

Section Raised.
Variable I : store X -> Prop.
Variable R : store X -> Prop.
Hypothesis body_keeps : ∀ k cursor_ s, I s -> I (body k cursor_ s).1.
Hypothesis body_raise : ∀ k cursor_ s s' e,
  I s -> body k cursor_ s = (s', Raise e) -> R s'.

Lemma while_true_raise k fuel : ∀ cursor_ s s' e,
  I s -> while_true fuel (body k) cursor_ s = (s', Raise e) -> R s'.
Proof.
  induction fuel as [|fuel IH]; intros cursor_ s s' e Hs Hrun; [done|].
  pose proof (body_raise k cursor_ s) as H1.
  pose proof (body_keeps k cursor_ s Hs) as H2.
  cbn [while_true] in Hrun. unfold bind at 1 in Hrun.
  destruct (body k cursor_ s) as [s1 [[|c]|e1|]]; try done.
  - by eapply IH.
  - injection Hrun as <- <-. by eapply H1.
Qed.

Lemma for_each_raise fuel (ks : list K) : ∀ s s' e,
  I s ->
  for_each ks (fun k => while_true fuel (body k) None) s = (s', Raise e) -> R s'.
Proof.
  induction ks as [|k ks IH]; intros s s' e Hs Hrun; [done|].
  pose proof (while_true_raise k fuel None s) as H1.
  pose proof (while_true_keeps I body_keeps k fuel None s Hs) as H2.
  cbn [for_each] in Hrun. unfold bind at 1 in Hrun.
  destruct (while_true fuel (body k) None s) as [s1 [[]|e1|]]; try done.
  - by eapply IH.
  - injection Hrun as <- <-. by eapply H1.
Qed.

End Raised.

End RunFacts.

Lemma elem_of_collect {X} (body : element -> M (store X) unit) els x :
  x ∈ (collect body els).1 ->
  ∃ e xs, e ∈ els ∧ element_effect body e = Some xs ∧ x ∈ xs.
Proof.
  induction els as [|e els IH]; cbn; [by intros ?%elem_of_nil|].
  destruct (element_effect body e) as [xs|] eqn:He; cbn; [|by intros ?%elem_of_nil].
  intros [Hx|Hx]%elem_of_app.
  - exists e, xs. split; [by left|done].
  - destruct (IH Hx) as (e' & xs' & ? & ?). exists e', xs'. split; [by right|done].
Qed.

Lemma family_effect_none category e :
  element_effect (family_element category) e = None <-> properties e = Null.
Proof.
  unfold element_effect, family_element, bind, as_dict.
  destruct (properties e); cbn; split; done.
Qed.

Lemma family_collect_incomplete category els :
  (collect (family_element category) els).2 = false ->
  Exists (fun e => properties e = Null) els.
Proof.
  induction els as [|e els IH]; cbn; [done|].
  destruct (element_effect _ e) as [xs|] eqn:He; cbn.
  - intros Hc. right. by apply IH.
  - intros _. left. by apply (family_effect_none category).
Qed.

Lemma or_else_unknown_nonempty v : or_else v "Unknown" ≠ "".
Proof. destruct v as [[|a s]|]; done. Qed.

Lemma family_effect_filled category e xs x :
  element_effect (family_element category) e = Some xs -> x ∈ xs ->
  fi_category x = category ∧ fi_family_name x ≠ "" ∧ fi_type_name x ≠ "".
Proof.
  unfold element_effect, family_element, bind, as_dict.
  destruct (get_default (properties e) ∅) as [props|]; cbn; [|done].
  intros [= <-]. intros ->%list_elem_of_singleton. cbn.
  rewrite scan_property_names. cbn.
  split; [done|]. split; repeat case_match; by try apply or_else_unknown_nonempty.
Qed.

Lemma trace_elements_nil {K} api from (keys : list K) :
  trace_elements api from keys = [] <->
  ∀ i, (i < length keys)%nat -> page_elements (api (from + i)%nat) = [].
Proof.
  revert from. induction keys as [|k keys IH]; intros from; cbn.
  - split; [intros _ i ?; lia|done].
  - rewrite app_nil, IH.
    assert (Hmap : (λ e, (k, e)) <$> page_elements (api from) = [] <->
                   page_elements (api from) = []).
    { split; [apply fmap_nil_inv|by intros ->]. }
    rewrite Hmap. split.
    + intros [H0 Hrest] [|i] Hi; [by rewrite Nat.add_0_r|].
      replace (from + S i)%nat with (S from + i)%nat by lia. apply Hrest. lia.
    + intros Hall. split.
      * specialize (Hall 0%nat). rewrite Nat.add_0_r in Hall. apply Hall. lia.
      * intros i Hi. replace (S from + i)%nat with (from + S i)%nat by lia.
        apply Hall. lia.
Qed.

(** ** The family-instances view as a whole *)

Section FamilyView.
Variable api : nat -> reply elements_data.
Variables token region group_id : string.

Lemma family_page_warnings category cursor_ (s : store family_instance) :
  warnings (family_page api token region group_id category cursor_ s).1 = warnings s.
Proof.
  destruct (fetched (api (length (sent s)))) as [d|] eqn:Hd.
  - by rewrite (family_page_fetched _ _ _ _ _ _ _ _ Hd).
  - by destruct (family_page_failed api token region group_id category cursor_ s Hd)
      as [e ->].
Qed.

Lemma family_page_raise category cursor_ (s s' : store family_instance) e :
  family_page api token region group_id category cursor_ s = (s', Raise e) ->
  length (sent s') = S (length (sent s)) ∧
  ∀ d, fetched (api (length (sent s))) = Some d ->
       Exists (fun el => properties el = Null) (page_results_of d).
Proof.
  intros Hrun.
  pose proof (family_page_sent api token region group_id category cursor_ s) as Hs.
  rewrite Hrun in Hs. cbn in Hs. split; [rewrite Hs, length_app; cbn; lia|].
  intros d Hd. rewrite (family_page_fetched _ _ _ _ _ _ _ _ Hd) in Hrun.
  cbn in Hrun. destruct (collect _ _).2 eqn:Hc; [done|].
  by eapply family_collect_incomplete.
Qed.

Lemma view_family_instances_loops fuel (sf sf' : store family_instance) o :
  view_family_instances api token region group_id fuel sf = (sf', o) ->
  (for_each family_categories
     (fun category => while_true fuel
        (family_page api token region group_id category) None) sf).1 = sf' ∧
  match o with
  | Ret table =>
      (for_each family_categories
         (fun category => while_true fuel
            (family_page api token region group_id category) None) sf).2 = Ret tt ∧
      table = match items sf' with
              | [] => NoInstancesFound
              | all_instances =>
                  InstanceRows
                    ((fun i => (fi_category i, fi_family_name i, fi_type_name i,
                                fi_element_name i)) <$> all_instances)
              end
  | Raise e =>
      (for_each family_categories
         (fun category => while_true fuel
            (family_page api token region group_id category) None) sf).2 = Raise e
  | OutOfFuel => True
  end.
Proof.
  unfold view_family_instances, family_loop, bind.
  destruct (for_each _ _ sf) as [s1 [[]|e|]]; cbn.
  - destruct (items s1) eqn:Hi; intros [= <- <-]; by rewrite Hi.
  - by intros [= <- <-].
  - by intros [= <- <-].
Qed.

(** X3.  The family-instances view fails fast: it raises only right
    after a request whose reply was not a usable page or held an element
    with null properties; that request is the last one it sends, and no
    warning is recorded. *)
Theorem family_view_fails_fast fuel (sf sf' : store family_instance) e :
  view_family_instances api token region group_id fuel sf = (sf', Raise e) ->
  warnings sf' = warnings sf ∧
  ∃ n, length (sent sf') = S n ∧ (length (sent sf) ≤ n)%nat ∧
       ∀ d, fetched (api n) = Some d ->
            Exists (fun el => properties el = Null) (page_results_of d).
Proof.
  intros Hview.
  destruct (view_family_instances_loops fuel sf sf' _ Hview) as [Hst Hout].
  split.
  - rewrite <- Hst.
    apply (for_each_keeps (family_page api token region group_id)
             (fun s => warnings s = warnings sf)); [|done].
    intros k c s Hs. by rewrite family_page_warnings.
  - destruct (for_each _ _ sf) as [s1 o] eqn:Hrun. cbn in Hst, Hout. subst s1 o.
    apply (for_each_raise (family_page api token region group_id)
             (fun s => length (sent sf) ≤ length (sent s))%nat
             (fun s' => ∃ n, length (sent s') = S n ∧ (length (sent sf) ≤ n)%nat ∧
                ∀ d, fetched (api n) = Some d ->
                     Exists (fun el => properties el = Null) (page_results_of d)))
      in Hrun; [done| | |done].
    + intros k c s Hs. rewrite family_page_sent, length_app. cbn. lia.
    + intros k c s s' e' Hs Hraise.
      destruct (family_page_raise _ _ _ _ _ Hraise) as [Hlen Hbad].
      exists (length (sent s)). done.
Qed.

(** X4.  In the table of the family-instances view every row names one
    of the six categories queried, and its family name and type name
    are never empty. *)
Theorem family_rows_are_filled fuel (sf sf' : store family_instance) rows :
  items sf = [] ->
  view_family_instances api token region group_id fuel sf =
    (sf', Ret (InstanceRows rows)) ->
  Forall (fun row => row.1.1.1 ∈ family_categories ∧
                     row.1.1.2 ≠ "" ∧ row.1.2 ≠ "") rows.
Proof.
  intros Hempty Hview.
  destruct (view_family_instances_loops fuel sf sf' _ Hview) as [Hst [Hret Htable]].
  destruct (for_each _ _ sf) as [s1 o] eqn:Hrun. cbn in Hst, Hret. subst s1 o.
  destruct (for_each_trace_ret api family_element
              (page_request FamilyInstances token region group_id)
              (family_page api token region group_id)
              (family_page_sent api token region group_id)
              (family_page_items api token region group_id)
              (family_page_ret api token region group_id)
              fuel family_categories sf sf' Hrun)
    as (passes & Hk & [_ Hitems] & _).
  rewrite Hempty in Hitems. cbn in Hitems.
  assert (Hall : Forall (fun i => fi_category i ∈ family_categories ∧
                                  fi_family_name i ≠ "" ∧ fi_type_name i ≠ "")
                   (items sf')).
  { rewrite Hitems. apply Forall_forall. intros x Hx.
    apply elem_of_trace_items in Hx as (i & k & Hi & Hx).
    apply list_lookup_fmap_Some in Hi as (p & -> & Hp).
    unfold page_items in Hx.
    destruct (fetched _) as [d|]; [|by apply elem_of_nil in Hx].
    apply elem_of_collect in Hx as (el & xs & _ & Heff & Hx).
    destruct (family_effect_filled _ _ _ _ Heff Hx) as (Hcat & ? & ?).
    split; [|done]. rewrite Hcat. apply (Forall_lookup_1 _ _ _ _ Hk Hp). }
  destruct (items sf') as [|i l]; [done|].
  injection Htable as ->.
  apply Forall_forall. intros row Hrow.
  change (row ∈ (fun i => (fi_category i, fi_family_name i, fi_type_name i,
                           fi_element_name i)) <$> (i :: l)) in Hrow.
  apply list_elem_of_fmap in Hrow as (x & -> & Hx).
  rewrite Forall_forall in Hall. exact (Hall x Hx).
Qed.

(** X5.  The family-instances view returns its "no instances" message
    table exactly when none of the pages it fetched held an element. *)
Theorem family_view_empty_message fuel (sf sf' : store family_instance) table :
  items sf = [] ->
  view_family_instances api token region group_id fuel sf = (sf', Ret table) ->
  (table = NoInstancesFound <->
   ∀ n, (length (sent sf) ≤ n < length (sent sf'))%nat -> page_elements (api n) = []).
Proof.
  intros Hempty Hview.
  destruct (view_family_instances_loops fuel sf sf' _ Hview) as [Hst [Hret Htable]].
  destruct (for_each _ _ sf) as [s1 o] eqn:Hrun. cbn in Hst, Hret. subst s1 o.
  destruct (for_each_trace_ret api family_element
              (page_request FamilyInstances token region group_id)
              (family_page api token region group_id)
              (family_page_sent api token region group_id)
              (family_page_items api token region group_id)
              (family_page_ret api token region group_id)
              fuel family_categories sf sf' Hrun)
    as (passes & Hk & [Hsent Hitems] & Hcomplete).
  rewrite Hempty in Hitems. cbn in Hitems.
  pose proof (family_trace_elements api _ _ Hcomplete) as Hf2.
  assert (Hnil : items sf' = [] <-> trace_elements api (length (sent sf)) passes.*1 = []).
  { rewrite Hitems. split; intros Hn; rewrite Hn in Hf2.
    - by apply Forall2_nil_inv_r in Hf2.
    - by apply Forall2_nil_inv_l in Hf2. }
  assert (Htab : table = NoInstancesFound <-> items sf' = []).
  { rewrite Htable. by destruct (items sf'). }
  rewrite Htab, Hnil, trace_elements_nil, Hsent, length_app, !length_fmap.
  split.
  - intros Hall n [Hlo Hhi].
    replace n with (length (sent sf) + (n - length (sent sf)))%nat by lia.
    apply Hall. lia.
  - intros Hall i Hi. apply Hall. lia.
Qed.

End FamilyView.

(** ** The colored view as a whole *)

Lemma family_collect_complete category els :
  Forall (fun e => properties e ≠ Null) els ->
  (collect (family_element category) els).2 = true.
Proof.
  induction 1 as [|e els He _ IH]; [done|]. cbn.
  destruct (element_effect _ e) as [xs|] eqn:Heff; [done|].
  by apply family_effect_none in Heff.
Qed.

Section ColoredView.
Variable api : nat -> reply elements_data.
Variables token region group_id : string.

Lemma colored_page_warning row cursor_ (s : store highlight) :
  warnings (colored_page api token region group_id row cursor_ s).1 = warnings s ∨
  ∃ e, warnings (colored_page api token region group_id row cursor_ s).1 =
         warnings s ++ [(row_category row, e)] ∧
       (colored_page api token region group_id row cursor_ s).2 = Ret Break.
Proof.
  destruct (fetched (api (length (sent s)))) as [d|] eqn:Hd.
  - rewrite (colored_page_fetched _ _ _ _ _ _ _ _ Hd). cbn.
    destruct (collect _ _).2; [by left|right]. by exists AttributeError.
  - destruct (colored_page_failed api token region group_id row cursor_ s Hd)
      as [e ->]. right. by exists e.
Qed.

Lemma colored_loop_warning row fuel : ∀ cursor_ (s : store highlight),
  warnings (while_true fuel (colored_page api token region group_id row) cursor_ s).1
    = warnings s ∨
  ∃ e, warnings (while_true fuel (colored_page api token region group_id row)
                   cursor_ s).1 = warnings s ++ [(row_category row, e)].
Proof.
  induction fuel as [|fuel IH]; intros cursor_ s; [by left|].
  destruct (colored_page_warning row cursor_ s) as [Hw|(e & Hw & Hb)].
  - cbn [while_true]. unfold bind.
    destruct (colored_page _ _ _ _ row cursor_ s) as [s1 [[|c]|e|]]; cbn in Hw;
      try (by left).
    rewrite <- Hw. apply IH.
  - cbn [while_true]. unfold bind.
    destruct (colored_page _ _ _ _ row cursor_ s) as [s1 o]; cbn in Hw, Hb.
    subst o. right. by exists e.
Qed.

(** X6.  The colored view records at most one warning per row, in row
    order: the categories of the warnings it adds form a sublist of the
    categories of the rows. *)
Theorem colored_view_warns_once_per_row fuel rows (s : store highlight) :
  ∃ ws,
    warnings (view_colored_categories api token region group_id fuel rows s).1 =
      warnings s ++ ws ∧
    ws.*1 `sublist_of` (row_category <$> rows).
Proof.
  assert (Hloops : ∀ s, ∃ ws,
    warnings (for_each rows (fun row => while_true fuel
                (colored_page api token region group_id row) None) s).1 =
      warnings s ++ ws ∧
    ws.*1 `sublist_of` (row_category <$> rows)).
  { clear s. induction rows as [|row rows IH]; intros s.
    - exists []. cbn. by rewrite app_nil_r.
    - cbn [for_each]. unfold bind at 1.
      destruct (colored_loop_warning row fuel None s) as [Hw|[e Hw]].
      + destruct (while_true _ _ _ s) as [s1 [[]|e1|]]; cbn in Hw.
        * destruct (IH s1) as (ws & Hws & Hsub). exists ws.
          rewrite Hws, Hw. split; [done|]. by apply sublist_cons.
        * exists []. cbn. rewrite Hw, app_nil_r. split; [done|apply sublist_nil_l].
        * exists []. cbn. rewrite Hw, app_nil_r. split; [done|apply sublist_nil_l].
      + destruct (while_true _ _ _ s) as [s1 [[]|e1|]]; cbn in Hw.
        * destruct (IH s1) as (ws & Hws & Hsub). exists ((row_category row, e) :: ws).
          rewrite Hws, Hw, <- app_assoc. split; [done|]. cbn. by apply sublist_skip.
        * exists [(row_category row, e)]. split; [done|]. cbn.
          apply sublist_skip, sublist_nil_l.
        * exists [(row_category row, e)]. split; [done|]. cbn.
          apply sublist_skip, sublist_nil_l. }
  destruct (Hloops s) as (ws & Hws & Hsub). exists ws. split; [|done].
  unfold view_colored_categories, colored_loop, bind.
  by destruct (for_each _ _ s) as [s1 [[]|e|]].
Qed.

Lemma colored_loop_single_page row fuel (s : store highlight) d :
  fetched (api (length (sent s))) = Some d -> new_cursor_of d = None ->
  while_true (S fuel) (colored_page api token region group_id row) None s =
  ((colored_page api token region group_id row None s).1, Ret tt).
Proof.
  intros Hd Hc. cbn [while_true]. unfold bind.
  rewrite (colored_page_fetched _ _ _ _ _ _ _ _ Hd). cbn.
  destruct (collect _ _).2; [|done].
  unfold page_ctl, stop_condition. by rewrite Hc.
Qed.

(** X7.  When every reply is a page without a cursor, the colored view
    sends exactly one request per row, in row order and without a
    cursor, and returns the highlight list made of what each of these
    pages yields for its row. *)
Theorem colored_view_one_request_per_row fuel rows (s : store highlight) :
  single_pages api ->
  let run := view_colored_categories api token region group_id (S fuel) rows s in
  run.2 = Ret (items run.1) ∧
  run_of api (fun row => colored_element (row_color_hex row))
    (fun row => page_request CategoryElements token region group_id
                  (row_category row))
    ((fun row => (row, None)) <$> rows) s run.1.
Proof.
  intros Hsingle.
  assert (Hloops : ∀ s,
    (for_each rows (fun row => while_true (S fuel)
       (colored_page api token region group_id row) None) s).2 = Ret tt ∧
    run_of api (fun row => colored_element (row_color_hex row))
      (fun row => page_request CategoryElements token region group_id
                    (row_category row))
      ((fun row => (row, None)) <$> rows) s
      (for_each rows (fun row => while_true (S fuel)
         (colored_page api token region group_id row) None) s).1).
  { clear s. induction rows as [|row rows IH]; intros s.
    - split; [done|apply run_of_nil].
    - destruct (Hsingle (length (sent s))) as (d & Hd & Hc).
      cbn [for_each]. unfold bind. rewrite (colored_loop_single_page _ _ _ _ Hd Hc).
      destruct (IH (colored_page api token region group_id row None s).1)
        as [Hret Hrun].
      destruct (for_each _ _ _) as [s2 o]. cbn in Hret, Hrun. subst o.
      split; [done|]. cbn [fmap list_fmap].
      refine (run_of_app api _ _ [(row, None)] _ _ _ _ _ Hrun).
      apply (run_of_one api (fun row => colored_element (row_color_hex row)) _
               (colored_page api token region group_id)
               (colored_page_sent api token region group_id)
               (colored_page_items api token region group_id)). }
  destruct (Hloops s) as [Hret Hrun]. cbn zeta.
  unfold view_colored_categories, colored_loop, bind.
  destruct (for_each _ _ s) as [s1 o]. cbn in Hret, Hrun. by subst o.
Qed.

Lemma family_loop_single_page category fuel (s : store family_instance) d :
  fetched (api (length (sent s))) = Some d -> new_cursor_of d = None ->
  Forall (fun e => properties e ≠ Null) (page_results_of d) ->
  while_true (S fuel) (family_page api token region group_id category) None s =
  ((family_page api token region group_id category None s).1, Ret tt).
Proof.
  intros Hd Hc Hwf. cbn [while_true]. unfold bind.
  rewrite (family_page_fetched _ _ _ _ _ _ _ _ Hd). cbn.
  rewrite (family_collect_complete _ _ Hwf).
  unfold page_ctl, stop_condition. by rewrite Hc.
Qed.

(** X8.  When every reply is a page without a cursor and no element has
    null properties, the family-instances view returns after exactly
    six requests, one per category in the order of the list and without
    a cursor, having collected what each of these pages yields. *)
Theorem family_view_six_requests fuel (s : store family_instance) :
  single_pages api -> well_formed_pages api ->
  let run := view_family_instances api token region group_id (S fuel) s in
  (∃ table, run.2 = Ret table) ∧
  run_of api family_element (page_request FamilyInstances token region group_id)
    ((fun category => (category, None)) <$> family_categories) s run.1 ∧
  length (sent run.1) = (length (sent s) + 6)%nat.
Proof.
  intros Hsingle Hwf.
  assert (Hloops : ∀ cats s,
    (for_each cats (fun category => while_true (S fuel)
       (family_page api token region group_id category) None) s).2 = Ret tt ∧
    run_of api family_element (page_request FamilyInstances token region group_id)
      ((fun category => (category, None)) <$> cats) s
      (for_each cats (fun category => while_true (S fuel)
         (family_page api token region group_id category) None) s).1).
  { clear s. induction cats as [|category cats IH]; intros s.
    - split; [done|apply run_of_nil].
    - destruct (Hsingle (length (sent s))) as (d & Hd & Hc).
      cbn [for_each]. unfold bind.
      rewrite (family_loop_single_page _ _ _ _ Hd Hc (Hwf _ _ Hd)).
      destruct (IH (family_page api token region group_id category None s).1)
        as [Hret Hrun].
      destruct (for_each _ _ _) as [s2 o]. cbn in Hret, Hrun. subst o.
      split; [done|]. cbn [fmap list_fmap].
      refine (run_of_app api _ _ [(category, None)] _ _ _ _ _ Hrun).
      apply (run_of_one api family_element _
               (family_page api token region group_id)
               (family_page_sent api token region group_id)
               (family_page_items api token region group_id)). }
  destruct (Hloops family_categories s) as [Hret Hrun]. cbn zeta.
  unfold view_family_instances, family_loop, bind.
  destruct (for_each _ _ s) as [s1 o]. cbn in Hret, Hrun. subst o.
  assert (Hlen : length (sent s1) = (length (sent s) + 6)%nat).
  { destruct Hrun as [-> _]. by rewrite length_app, length_fmap. }
  destruct (items s1); cbn; eauto.
Qed.

End ColoredView.

(** ** The reconciliation views: failures and what they depend on *)

Section MapEach.
Context {X A B : Type}.

Lemma map_each_type_error (f : A -> M (store X) B) l (s : store X) :
  (∀ x, (∃ y, f x s = (s, Ret y)) ∨ f x s = (s, Raise TypeError)) ->
  Exists (fun x => f x s = (s, Raise TypeError)) l ->
  map_each l f s = (s, Raise TypeError).
Proof.
  intros Hf. induction 1 as [x l Hx|x l _ IH]; cbn; unfold bind.
  - by rewrite Hx.
  - destruct (Hf x) as [[y ->]| ->]; [|done]. by rewrite IH.
Qed.

Lemma map_each_ext (f g : A -> M (store X) B) l (s : store X) :
  (∀ x, x ∈ l -> f x = g x) -> map_each l f s = map_each l g s.
Proof.
  intros Hfg. induction l as [|x l IH]; [done|]. cbn. unfold bind.
  rewrite (Hfg x) by (by left).
  destruct (g x s) as [s1 [y|e|]]; try done.
  assert (Heq : map_each l f = map_each l g).
  { clear IH s s1 y. induction l as [|z l IH]; [done|]. cbn.
    rewrite (Hfg z) by (right; by left). rewrite IH; [done|].
    intros w Hw. apply Hfg. inversion Hw; subst; [by left|].
    right. by right. }
  by rewrite Heq.
Qed.

Lemma map_each_same_ending {C} (R : B -> C -> Prop) (f : A -> M (store X) B)
    (g : A -> M (store X) C) l (s : store X) :
  (∀ x, (f x s).1 = s ∧ (g x s).1 = s ∧ same_ending R (f x s).2 (g x s).2) ->
  (map_each l f s).1 = s ∧ (map_each l g s).1 = s ∧
  same_ending (Forall2 R) (map_each l f s).2 (map_each l g s).2.
Proof.
  intros Hfg. induction l as [|x l (IH1 & IH2 & IH3)]; cbn.
  - repeat split. constructor.
  - unfold bind. destruct (Hfg x) as (H1 & H2 & H3).
    destruct (f x s) as [s1 o1], (g x s) as [s2 o2]. cbn in H1, H2, H3. subst s1 s2.
    destruct o1 as [a|e1|], o2 as [b|e2|]; cbn in H3; try done.
    destruct (map_each l f s) as [s1 o1], (map_each l g s) as [s2 o2].
    cbn in IH1, IH2, IH3. subst s1 s2.
    destruct o1 as [ys|e1|], o2 as [zs|e2|]; cbn in IH3; try done.
    cbn. repeat split. by constructor.
Qed.

End MapEach.

Lemma gt_zero_cases {S} (v : option Z) (s : S) :
  (∃ n, v = Some n ∧ gt_zero v s = (s, Ret (bool_decide (0 < n)))) ∨
  (v = None ∧ gt_zero v s = (s, Raise TypeError)).
Proof. destruct v as [n|]; [left; eauto|by right]. Qed.

Section ReconciliationFailures.
Context {X : Type}.
Variable api : nat -> reply categories_data.
Variables token region group_id : string.

(** X9.  When the one request of a reconciliation is not answered by a
    usable response, the summary view, the data view and the report all
    raise a user error that wraps the cause, after that single request. *)
Theorem reconciliation_failure_is_user_error rows (s : store X) :
  fetched (api (length (sent s))) = None ->
  ∃ e,
    view_category_summary api token region group_id rows s =
      (log_request (counts_request token region group_id) s, Raise (UserError e)) ∧
    view_category_data api token region group_id rows s =
      (log_request (counts_request token region group_id) s, Raise (UserError e)) ∧
    download_category_report api token region group_id rows s =
      (log_request (counts_request token region group_id) s, Raise (UserError e)).
Proof.
  intros Hd. destruct (fetch_counts_failed api token region group_id s Hd) as [e He].
  exists e.
  unfold view_category_summary, view_category_data, download_category_report, bind.
  by rewrite He.
Qed.

Lemma summary_row_for_cases required counts cat (s : store X) :
  (∃ row, summary_row_for required counts cat s = (s, Ret row)) ∨
  summary_row_for required counts cat s = (s, Raise TypeError).
Proof.
  unfold summary_row_for, bind.
  destruct (gt_zero_cases (count_of counts cat) s) as [(n & _ & ->)|[_ ->]]; eauto.
Qed.

Lemma report_row_for_cases required counts cat (s : store X) :
  (∃ row, report_row_for required counts cat s = (s, Ret row)) ∨
  report_row_for required counts cat s = (s, Raise TypeError).
Proof.
  unfold report_row_for, bind.
  destruct (gt_zero_cases (count_of counts cat) s) as [(n & _ & ->)|[_ ->]]; eauto.
Qed.

Lemma count_in_model_type_error counts cats (s : store X) :
  Exists (fun cat => count_of counts cat = None) cats ->
  count_in_model counts cats s = (s, Raise TypeError).
Proof.
  unfold count_in_model. intros Hex. generalize O.
  induction Hex as [cat cats Hc|cat cats _ IH]; intros acc; cbn; unfold bind at 1 2.
  - by rewrite Hc.
  - destruct (gt_zero_cases (count_of counts cat) s) as [(n & _ & ->)|[_ ->]];
      [apply IH|done].
Qed.

(** X10.  A null count reported for a category of the master list is
    not caught: the summary view, the data view and the report then
    raise a type error (not a user error), once the counts are fetched. *)
Theorem null_count_raises_type_error rows (s s' : store X) counts :
  fetch_counts api token region group_id s = (s', Ret counts) ->
  Exists (fun cat => count_of counts cat = None) all_categories ->
  view_category_summary api token region group_id rows s = (s', Raise TypeError) ∧
  view_category_data api token region group_id rows s = (s', Raise TypeError) ∧
  download_category_report api token region group_id rows s = (s', Raise TypeError).
Proof.
  intros Hfetch Hnull.
  unfold view_category_summary, view_category_data, download_category_report, bind.
  rewrite Hfetch. split; [|split].
  - apply map_each_type_error; [intros; apply summary_row_for_cases|].
    eapply Exists_impl; [done|]. cbn. intros cat Hc.
    unfold summary_row_for, bind. by rewrite Hc.
  - by rewrite count_in_model_type_error.
  - rewrite map_each_type_error; [done|intros; apply report_row_for_cases|].
    eapply Exists_impl; [done|]. cbn. intros cat Hc.
    unfold report_row_for, bind. by rewrite Hc.
Qed.

End ReconciliationFailures.

Lemma map_each_pointwise {X A B} (f g : A -> M (store X) B) l : ∀ s : store X,
  (∀ x s', x ∈ l -> f x s' = g x s') -> map_each l f s = map_each l g s.
Proof.
  induction l as [|x l IH]; intros s Hfg; [done|]. cbn. unfold bind.
  rewrite (Hfg x s) by (by left).
  destruct (g x s) as [s1 [y|e|]]; try done.
  rewrite (IH s1); [done|]. intros z s' Hz. apply Hfg. by right.
Qed.



(** The four groups hold the categories of a list, each exactly once. *)
Lemma classes_partition {A} (f : A -> classification) (l : list A) :
  filter (fun x => PresentInContractAndModel = f x) l ++
  filter (fun x => InContractMissingFromModel = f x) l ++
  filter (fun x => InModelMissingFromContract = f x) l ++
  filter (fun x => NeitherInContractNorModel = f x) l ≡ₚ l.
Proof.
  induction l as [|x l IH]; [done|].
  rewrite !filter_cons.
  destruct (f x); repeat case_decide; try done.
  - cbn. by rewrite IH.
  - cbn. rewrite <- Permutation_middle. by rewrite IH.
  - cbn. rewrite (app_assoc _ _ (x :: _)), <- Permutation_middle, <- app_assoc.
    by rewrite IH.
  - rewrite 2!(app_assoc _ _ (x :: _)), <- Permutation_middle, <- !app_assoc.
    by rewrite IH.
Qed.

Section ReconciliationResults.
Context {X : Type}.
Variable api : nat -> reply categories_data.
Variables token region group_id : string.

Lemma count_in_model_filter counts cats (s : store X) :
  Forall (fun cat => count_of counts cat ≠ None) cats ->
  count_in_model counts cats s =
  (s, Ret (length (filter (fun cat => in_model counts cat = true) cats))).
Proof.
  unfold count_in_model. intros Hall.
  enough (Hacc : ∀ acc, fold_each cats
            (fun n cat => let* positive := gt_zero (count_of counts cat) in
                          ret (if positive then S n else n)) acc s =
            (s, Ret (acc + length (filter (fun cat => in_model counts cat = true)
                                     cats))%nat)) by apply Hacc.
  induction Hall as [|cat cats Hc _ IH]; intros acc; cbn.
  - by rewrite Nat.add_0_r.
  - unfold bind at 1 2.
    destruct (gt_zero_cases (count_of counts cat) s) as [(n & Hn & ->)|[Hn _]];
      [|done].
    unfold ret at 1. cbn beta iota. rewrite IH.
    assert (Him : in_model counts cat = bool_decide (0 < n)).
    { unfold in_model. by rewrite Hn. }
    rewrite Him.
    destruct (bool_decide (0 < n)); case_decide; try done; cbn.
    by rewrite Nat.add_succ_r.
Qed.

Lemma view_category_data_result rows (s s' : store X) counts :
  fetch_counts api token region group_id s = (s', Ret counts) ->
  counts_are_numbers counts ->
  ∃ groups,
    (∀ c, di_label <$> group_of c groups =
          filter (fun cat => c = class_of rows counts cat) all_categories) ∧
    view_category_data api token region group_id rows s =
    (s', Ret (DataResult
       (DataSummary 20
          (length (filter (fun cat => in_model counts cat = true) all_categories))
          (size (required_set rows))
          (length (filter (fun cat => in_model counts cat = true)
                     (elements (required_set rows))))
          (if bool_decide
                (length (filter (fun cat => in_model counts cat = true)
                           (elements (required_set rows))) =
                 size (required_set rows))
           then SUCCESS else WARNING))
       (titled_if_nonempty "✓ Present (Contract & Model)" (present_group groups) ++
        titled_if_nonempty "✗ Missing from Model" (missing_from_model_group groups) ++
        titled_if_nonempty "⚠ Missing from Contract"
          (missing_from_contract_group groups) ++
        titled_if_nonempty "○ Not Applicable" (not_applicable_group groups)))).
Proof.
  intros Hfetch Hn.
  assert (Hnum : ∀ cats, Forall (fun cat => count_of counts cat ≠ None) cats).
  { intros cats. apply Forall_forall. intros cat _.
    destruct (count_of_number counts cat Hn) as [n ->]. done. }
  destruct (fold_each_groups rows counts all_categories s' no_groups Hn)
    as (groups & Hg & Hlabels).
  exists groups. split.
  - intros c. rewrite Hlabels. by destruct c.
  - unfold view_category_data, bind. rewrite Hfetch.
    rewrite !count_in_model_filter by done. by rewrite Hg.
Qed.

(** X11.  The summary table and the report read the counts and the rows
    through the master list only: two fetched mappings that agree on the
    twenty categories, with rows that declare the same ones of them,
    give the same table and the same report, whatever else the model or
    the rows contain. *)
Theorem summary_reads_master_list_only api' rows rows' (s s1 s1' : store X)
    counts counts' :
  fetch_counts api token region group_id s = (s1, Ret counts) ->
  fetch_counts api' token region group_id s = (s1', Ret counts') ->
  (∀ cat, cat ∈ all_categories ->
     count_of counts cat = count_of counts' cat ∧
     in_contract rows cat = in_contract rows' cat) ->
  view_category_summary api token region group_id rows s =
    view_category_summary api' token region group_id rows' s ∧
  download_category_report api token region group_id rows s =
    download_category_report api' token region group_id rows' s.
Proof.
  intros Hf Hf' Hagree.
  assert (s1 = s1') as <-.
  { pose proof (fetch_counts_sent api token region group_id s) as H1.
    pose proof (fetch_counts_sent api' token region group_id s) as H2.
    rewrite Hf in H1. rewrite Hf' in H2. cbn in H1, H2. congruence. }
  unfold view_category_summary, download_category_report, bind.
  rewrite Hf, Hf'. split.
  - apply map_each_pointwise. intros cat s' Hcat.
    destruct (Hagree cat Hcat) as [Hc Hi].
    unfold summary_row_for, bind. rewrite <- Hc.
    destruct (gt_zero _ s') as [s2 [b|e|]]; try done.
    by rewrite !bool_decide_required_set, Hi.
  - erewrite map_each_pointwise; [reflexivity|]. intros cat s' Hcat.
    destruct (Hagree cat Hcat) as [Hc Hi].
    unfold report_row_for, bind. rewrite <- Hc.
    destruct (gt_zero _ s') as [s2 [b|e|]]; try done.
    by rewrite !bool_decide_required_set, Hi.
Qed.


(** X13.  The groups of the data view partition the master list: once
    the counts are fetched and are numbers, the labels of the groups it
    returns, taken together, are the twenty categories, each exactly
    once. *)
Theorem data_view_groups_partition rows (s s' : store X) counts :
  fetch_counts api token region group_id s = (s', Ret counts) ->
  counts_are_numbers counts ->
  ∃ result,
    view_category_data api token region group_id rows s = (s', Ret result) ∧
    mjoin ((fun g => di_label <$> g.2) <$> dr_groups result) ≡ₚ all_categories.
Proof.
  intros Hfetch Hn.
  destruct (view_category_data_result rows s s' counts Hfetch Hn)
    as (groups & Hlabels & ->).
  eexists. split; [reflexivity|]. cbn [dr_groups].
  assert (Hone : ∀ title g,
    mjoin ((fun g => di_label <$> g.2) <$> titled_if_nonempty title g) =
    di_label <$> g).
  { intros title g. unfold titled_if_nonempty. case_bool_decide as Hlen.
    - cbn. by rewrite app_nil_r.
    - destruct g; [done|]. cbn in Hlen. lia. }
  rewrite !fmap_app, !join_app, !Hone.
  etrans; [|apply (classes_partition (class_of rows counts) all_categories)].
  by rewrite <- (Hlabels PresentInContractAndModel),
    <- (Hlabels InContractMissingFromModel),
    <- (Hlabels InModelMissingFromContract),
    <- (Hlabels NeitherInContractNorModel).
Qed.

End ReconciliationResults.

Section ReportAndSummary.
Context {X : Type}.
Variable api : nat -> reply categories_data.
Variables token region group_id : string.

Lemma row_and_report_row required counts cat (s : store X) :
  (summary_row_for required counts cat s).1 = s ∧
  (report_row_for required counts cat s).1 = s ∧
  same_ending rows_agree (summary_row_for required counts cat s).2
    (report_row_for required counts cat s).2.
Proof.
  unfold summary_row_for, report_row_for, bind.
  destruct (gt_zero_cases (count_of counts cat) s) as [(n & Hn & ->)|[_ ->]];
    [|done].
  cbn. split; [done|]. split; [done|]. unfold rows_agree.
  destruct (bool_decide (cat ∈ required)), (bool_decide (0 < n)) eqn:Hpos; cbn;
    repeat split; try done; try (by left).
  right. exists n. rewrite Hn. apply bool_decide_eq_true in Hpos. done.
Qed.

(** X14.  The report and the summary view end the same way on the same
    input: with the same requests sent, either both raise the same
    exception, or the table of the document has, under its three
    headers, one row per row of the summary table, with the same
    category, symbol and colour, and the same description, except that
    the document writes "Present (n elements)" with the count. *)
Theorem report_agrees_with_summary rows (s : store X) :
  (download_category_report api token region group_id rows s).1 =
    (view_category_summary api token region group_id rows s).1 ∧
  same_ending
    (fun table report =>
       report_header report = ["Category"; "Status"; "Description"] ∧
       Forall2 rows_agree table (report_rows report))
    (view_category_summary api token region group_id rows s).2
    (download_category_report api token region group_id rows s).2.
Proof.
  unfold view_category_summary, download_category_report, bind.
  destruct (fetch_counts api token region group_id s) as [s1 [counts|e|]];
    [|done..].
  destruct (map_each_same_ending rows_agree
              (summary_row_for (required_set rows) counts)
              (report_row_for (required_set rows) counts)
              all_categories s1
              (fun cat => row_and_report_row (required_set rows) counts cat s1))
    as (H1 & H2 & H3).
  destruct (map_each _ (summary_row_for _ _) s1) as [s2 o2].
  destruct (map_each _ (report_row_for _ _) s1) as [s3 o3].
  cbn in H1, H2, H3. subst s2 s3.
  destruct o2 as [table|e2|], o3 as [data_rows|e3|]; cbn in H3; try done.
Qed.

End ReportAndSummary.

(** ** The client helper, once more *)

Section ClientBehaviour.
Context {D : Type} `{Empty D} {X : Type}.
Variable api : nat -> reply D.

(** X15.  Whatever the reply, a call of the client helper posts exactly
    one request, to the fixed endpoint, with the bearer token, the
    region, the query, the variables (none when not given) and the
    timeout it was called with; it records no warning and touches no
    collected item. *)
Theorem execute_graphql_posts_once query token region vars timeout (s : store X) :
  let s' := (execute_graphql api query token region vars timeout s).1 in
  sent s' = sent s ++ [Request AEC_GRAPHQL_URL ("Bearer " +:+ token) region query
                         (default NoVars vars) timeout] ∧
  warnings s' = warnings s ∧ items s' = items s.
Proof. cbn zeta. by rewrite execute_graphql_sent. Qed.

End ClientBehaviour.

Section MissingData.
Variable api : nat -> reply elements_data.
Variables token region group_id : string.

(** X16.  A 200 response without errors and without the key "data"
    counts as an empty page: the loop ends quietly after that request.
    The same response with "data": null is an error: the family loop
    raises an attribute error, the colored loop records a warning with
    that error and ends. *)
Theorem missing_data_is_empty_null_data_fails category row cursor_ fuel txt errs dat
    n (sf : store family_instance) (sc : store highlight) :
  length (sent sf) = n -> length (sent sc) = n ->
  api n = Reply (HttpResponse 200 txt (Some (GqlBody errs dat))) ->
  errs = Absent ∨ errs = Null ∨ errs = Val [] ->
  let rf := page_request FamilyInstances token region group_id category cursor_ in
  let rc := page_request CategoryElements token region group_id
              (row_category row) cursor_ in
  (dat = Absent ->
     family_loop api token region group_id (S fuel) category cursor_ sf =
       (log_request rf sf, Ret tt) ∧
     colored_loop api token region group_id (S fuel) row cursor_ sc =
       (log_request rc sc, Ret tt)) ∧
  (dat = Null ->
     family_loop api token region group_id (S fuel) category cursor_ sf =
       (log_request rf sf, Raise AttributeError) ∧
     colored_loop api token region group_id (S fuel) row cursor_ sc =
       (log_warning (row_category row, AttributeError) (log_request rc sc), Ret tt)).
Proof.
  intros Hf Hc Hapi Herrs rf rc. split; intros ->.
  - assert (Hd : fetched (api n) = Some ∅).
    { rewrite Hapi. by destruct Herrs as [->|[->| ->]]. }
    unfold family_loop, colored_loop. cbn [while_true]. unfold bind.
    rewrite <- Hf in Hd at 1. rewrite (family_page_fetched _ _ _ _ _ _ _ _ Hd).
    rewrite Hf, <- Hc in Hd. rewrite (colored_page_fetched _ _ _ _ _ _ _ _ Hd).
    cbn. by rewrite !add_items_nil.
  - unfold family_loop, colored_loop. cbn [while_true].
    unfold family_page, colored_page, try_except, bind, execute_graphql, bind,
      requests_post.
    rewrite Hf, Hc, Hapi. by destruct Herrs as [->|[->| ->]].
Qed.

End MissingData.

(** ** The further properties at sample inputs *)

Lemma family_view_fails_fast_witness :
  let sf' : store family_instance :=
    log_request (page_request FamilyInstances "t" "r" "g" "Structural Framing" None)
      empty_store in
  warnings sf' = [] ∧
  ∃ n, length (sent sf') = S n ∧ (0 ≤ n)%nat ∧
       ∀ d, fetched (unavailable (D:=elements_data) n) = Some d ->
            Exists (fun el => properties el = Null) (page_results_of d).
Proof.
  exact (family_view_fails_fast unavailable "t" "r" "g" 1 empty_store _
           (RuntimeError (HttpStatus 500 "unavailable")) eq_refl).
Defined.

Lemma family_rows_are_filled_witness :
  ∃ sf' rows,
    view_family_instances (fun _ => page Absent [beam]) "t" "r" "g" 1 empty_store =
      (sf', Ret (InstanceRows rows)) ∧
    Forall (fun row => row.1.1.1 ∈ family_categories ∧
                       row.1.1.2 ≠ "" ∧ row.1.2 ≠ "") rows.
Proof.
  eexists _, _.
  refine ((fun H => conj H (family_rows_are_filled (fun _ => page Absent [beam])
            "t" "r" "g" 1 empty_store _ _ eq_refl H)) _).
  vm_compute. reflexivity.
Defined.

Lemma family_view_empty_message_witness :
  ∃ sf' table,
    view_family_instances (fun _ => page Absent []) "t" "r" "g" 1 empty_store =
      (sf', Ret table) ∧
    (table = NoInstancesFound <->
     ∀ n, (0 ≤ n < length (sent sf'))%nat ->
          page_elements (page Absent [] : reply elements_data) = []).
Proof.
  eexists _, _.
  refine ((fun H => conj H (family_view_empty_message (fun _ => page Absent [])
            "t" "r" "g" 1 empty_store _ _ eq_refl H)) _).
  vm_compute. reflexivity.
Defined.

Lemma sample_single_pages : single_pages (fun _ => page Absent [beam]).
Proof. intros n. eexists. split; reflexivity. Defined.

Lemma sample_well_formed_pages : well_formed_pages (fun _ => page Absent [beam]).
Proof. intros n d [= <-]. repeat constructor. discriminate. Defined.

Lemma colored_view_one_request_per_row_witness :
  let run := view_colored_categories (fun _ => page Absent [beam]) "t" "r" "g" 1
               sample_rows empty_store in
  run.2 = Ret (items run.1).
Proof.
  exact (proj1 (colored_view_one_request_per_row (fun _ => page Absent [beam])
                  "t" "r" "g" 0 sample_rows empty_store sample_single_pages)).
Defined.

Lemma family_view_six_requests_witness :
  length (sent (view_family_instances (fun _ => page Absent [beam]) "t" "r" "g" 1
                  empty_store).1) = 6%nat.
Proof.
  exact (proj2 (proj2 (family_view_six_requests (fun _ => page Absent [beam])
                         "t" "r" "g" 0 empty_store
                         sample_single_pages sample_well_formed_pages))).
Defined.

Lemma reconciliation_failure_is_user_error_witness :
  ∃ e,
    view_category_summary (X:=unit) unavailable "t" "r" "g" sample_rows empty_store =
      (log_request (counts_request "t" "r" "g") empty_store, Raise (UserError e)) ∧
    view_category_data (X:=unit) unavailable "t" "r" "g" sample_rows empty_store =
      (log_request (counts_request "t" "r" "g") empty_store, Raise (UserError e)) ∧
    download_category_report (X:=unit) unavailable "t" "r" "g" sample_rows
      empty_store =
      (log_request (counts_request "t" "r" "g") empty_store, Raise (UserError e)).
Proof.
  exact (reconciliation_failure_is_user_error unavailable "t" "r" "g" sample_rows
           empty_store eq_refl).
Defined.

Lemma null_count_of_walls :
  count_of (model_category_counts (results_list_of null_count)) "Walls" = None.
Proof.
  unfold count_of.
  rewrite model_category_counts_values.
  change (all_values (results_list_of null_count))
    with ([DistinctValue (Val "Walls") Null] ++ [DistinctValue (Val "Doors") (Val 2)]).
  rewrite foldl_app, foldl_add_value_lookup_other
    by (repeat constructor; discriminate).
  cbn [foldl]. rewrite add_value_name. cbn. by rewrite lookup_insert_eq.
Defined.

Lemma null_count_raises_type_error_witness :
  view_category_summary (X:=unit) null_count_api "t" "r" "g" sample_rows empty_store =
    (log_request (counts_request "t" "r" "g") empty_store, Raise TypeError).
Proof.
  refine (proj1 (null_count_raises_type_error null_count_api "t" "r" "g"
            sample_rows empty_store _ _
            (fetch_counts_fetched null_count_api "t" "r" "g" empty_store
               null_count eq_refl) _)).
  do 3 apply Exists_cons_tl. apply Exists_cons_hd. exact null_count_of_walls.
Defined.

Lemma sample_counts_agree cat :
  cat ∈ all_categories ->
  count_of (model_category_counts (results_list_of sample_counts)) cat =
    count_of (model_category_counts (results_list_of sample_counts_more)) cat ∧
  in_contract sample_rows cat =
    in_contract (sample_rows ++ [CategoryRow "Generic Models" "#808080"]) cat.
Proof.
  intros Hcat. unfold all_categories in Hcat.
  repeat (apply elem_of_cons in Hcat as [->|Hcat]; [split; vm_compute; reflexivity|]).
  by apply elem_of_nil in Hcat.
Defined.

Lemma summary_reads_master_list_only_witness :
  view_category_summary (X:=unit) counts_api "t" "r" "g" sample_rows empty_store =
  view_category_summary counts_more_api "t" "r" "g"
    (sample_rows ++ [CategoryRow "Generic Models" "#808080"]) empty_store.
Proof.
  exact (proj1 (summary_reads_master_list_only counts_api "t" "r" "g"
           counts_more_api sample_rows
           (sample_rows ++ [CategoryRow "Generic Models" "#808080"])
           empty_store _ _ _ _
           (fetch_counts_fetched counts_api "t" "r" "g" empty_store
              sample_counts eq_refl)
           (fetch_counts_fetched counts_more_api "t" "r" "g" empty_store
              sample_counts_more eq_refl)
           sample_counts_agree)).
Defined.


Lemma data_view_groups_partition_witness :
  ∃ result,
    view_category_data (X:=unit) counts_api "t" "r" "g" sample_rows empty_store =
      (log_request (counts_request "t" "r" "g") empty_store, Ret result) ∧
    mjoin ((fun g => di_label <$> g.2) <$> dr_groups result) ≡ₚ all_categories.
Proof.
  exact (data_view_groups_partition counts_api "t" "r" "g" sample_rows empty_store
           _ _
           (fetch_counts_fetched counts_api "t" "r" "g" empty_store
              sample_counts eq_refl)
           sample_counts_are_numbers).
Defined.

Lemma missing_data_is_empty_null_data_fails_witness :
  let api := fun _ : nat =>
    @Reply elements_data (HttpResponse 200 "" (Some (GqlBody Absent Absent))) in
  family_loop api "t" "r" "g" 1 "Walls" None empty_store =
    (log_request (page_request FamilyInstances "t" "r" "g" "Walls" None) empty_store,
     Ret tt) ∧
  colored_loop api "t" "r" "g" 1 (CategoryRow "Walls" "#00ff00") None empty_store =
    (log_request (page_request CategoryElements "t" "r" "g" "Walls" None) empty_store,
     Ret tt).
Proof.
  cbn zeta.
  exact (proj1 (missing_data_is_empty_null_data_fails
           (fun _ => Reply (HttpResponse 200 "" (Some (GqlBody Absent Absent))))
           "t" "r" "g" "Walls" (CategoryRow "Walls" "#00ff00") None 0 "" Absent Absent
           0%nat empty_store empty_store eq_refl eq_refl eq_refl (or_introl eq_refl))
           eq_refl).
Defined.

Lemma family_element_names_witness :
  element_effect (family_element "Walls") beam =
  Some [FamilyInstance "Walls" "W-Wide Flange" "W12x26" (Some "Beam 1")].
Proof.
  exact (family_element_names "Walls" beam
           (PropertyBlock
              (Val [Property (Val "Family Name") (Val "W-Wide Flange");
                    Property (Val "Type Name") (Val "W12x26")]))
           eq_refl).
Defined.

(** ** What the items of the data view show *)

Section DataItems.
Context {X : Type}.
Variable api : nat -> reply categories_data.
Variables token region group_id : string.

Lemma group_category_fits required counts groups groups' cat (s s' : store X) :
  (∀ c, Forall (item_fits c) (group_of c groups)) ->
  group_category required counts groups cat s = (s', Ret groups') ->
  ∀ c, Forall (item_fits c) (group_of c groups').
Proof.
  intros Hfits. unfold group_category, bind.
  destruct (gt_zero_cases (count_of counts cat) s) as [(n & Hn & ->)|[_ ->]];
    [|done].
  rewrite Hn.
  pose proof (Hfits PresentInContractAndModel) as H1.
  pose proof (Hfits InContractMissingFromModel) as H2.
  pose proof (Hfits InModelMissingFromContract) as H3.
  pose proof (Hfits NeitherInContractNorModel) as H4.
  cbn in H1, H2, H3, H4.
  destruct (bool_decide (cat ∈ required)), (bool_decide (0 < n)) eqn:Hpos; cbn;
    intros [= <- <-] c; destruct c; cbn; try assumption;
    apply Forall_app; (split; [assumption|]);
    repeat constructor; cbn; try done.
  all: exists n; split; [done|]; by apply bool_decide_eq_true in Hpos.
Qed.

Lemma fold_each_fits required counts cats (s s' : store X) : ∀ groups groups',
  (∀ c, Forall (item_fits c) (group_of c groups)) ->
  fold_each cats (group_category required counts) groups s = (s', Ret groups') ->
  ∀ c, Forall (item_fits c) (group_of c groups').
Proof.
  revert s. induction cats as [|cat cats IH]; intros s groups groups' Hfits; cbn.
  - by intros [= <- <-].
  - unfold bind at 1.
    destruct (group_category required counts groups cat s) as [s1 [g1|e|]] eqn:Hg;
      try done.
    intros Hrest. eapply IH; [|done]. by eapply group_category_fits.
Qed.

(** X18.  In the result of the data view, an item in the "present" or
    "missing from contract" group shows a count above zero, an item in
    the "missing from model" or "not applicable" group shows the text
    "0" whatever the model reported, and each has the status of its
    group. *)
Theorem data_items_fit_their_group rows (s s' : store X) result c its :
  view_category_data api token region group_id rows s = (s', Ret result) ->
  (group_title c, its) ∈ dr_groups result ->
  Forall (item_fits c) its.
Proof.
  unfold view_category_data, bind.
  destruct (fetch_counts api token region group_id s) as [s1 [counts|e|]];
    [|done..].
  destruct (count_in_model counts all_categories s1) as [s2 [n1|e|]]; [|done..].
  destruct (count_in_model counts _ s2) as [s3 [n2|e|]]; [|done..].
  destruct (fold_each _ _ _ s3) as [s4 [groups|e|]] eqn:Hfold; [|done..].
  intros [= <- <-]. cbn [dr_groups].
  intros (c' & Htitle & -> & _)%elem_of_rendered_groups.
  apply group_title_inj in Htitle as <-.
  eapply fold_each_fits; [|done]. intros []; constructor.
Qed.

End DataItems.

Lemma data_items_fit_their_group_witness :
  ∃ result its,
    view_category_data (X:=unit) counts_api "t" "r" "g" sample_rows empty_store =
      (log_request (counts_request "t" "r" "g") empty_store, Ret result) ∧
    (group_title PresentInContractAndModel, its) ∈ dr_groups result ∧
    Forall (item_fits PresentInContractAndModel) its.
Proof.
  eexists _, _. split; [vm_compute; reflexivity|].
  refine ((fun H2 => conj H2
            (data_items_fit_their_group (X:=unit) counts_api "t" "r" "g"
               sample_rows empty_store _ _ PresentInContractAndModel _
               ltac:(vm_compute; reflexivity) H2)) _).
  apply list_elem_of_here.
Defined.
